(** * owl: the pixel buffer [Image<BYTE>] and the file bridge [ImageFile]

    A shallow embedding of [src/core/Types.h], [src/core/Image.h] and of the
    implementation of [ImageFile] (load, save, loadJPEG, saveJPEG), followed
    by the properties of the specification that were checked against it.

    Conventions.
    - [unsigned int] is a [Z] in [0, 2^32) with the wrap-around written out
      ([to_unsigned]); [int] is a [Z] in [-2^31, 2^31) ([to_int]); [size_t]
      is 64 bits wide ([to_size_t]).
    - The free store is a finite map from block identifiers to arrays of
      cells; a pointer is a block identifier and an offset.  [nullptr] is
      [None].
    - A function that mutates [*this] returns the new object together with
      the new store.  Undefined behaviour (out-of-bounds access, freeing a
      dangling pointer, ...) and process termination by libjpeg's standard
      error handler are outcomes of their own. *)

From Stdlib Require Import ZArith Lia.
From Stdlib.Strings Require Import Byte.
From stdpp Require Import base option list gmap strings.

Open Scope Z_scope.

(** ** Machine integers *)

Module Int.

Definition to_unsigned (x : Z) : Z := x mod 2 ^ 32.

Definition to_size_t (x : Z) : Z := x mod 2 ^ 64.

Definition to_int (x : Z) : Z :=
  let y := x mod 2 ^ 32 in
  if y <? 2 ^ 31 then y else y - 2 ^ 32.

Definition is_unsigned (x : Z) : Prop := 0 <= x < 2 ^ 32.

End Int.

Import Int.

(** ** Outcomes of a call *)

Inductive outcome (A : Type) : Type :=
  | Ret (a : A)      (* the call returns *)
  | Undefined        (* the call has undefined behaviour *)
  | Exited.          (* the process was terminated inside the call *)

Arguments Ret {A} a.
Arguments Undefined {A}.
Arguments Exited {A}.

Definition obind {A B : Type} (c : outcome A) (k : A -> outcome B) : outcome B :=
  match c with
  | Ret a => k a
  | Undefined => Undefined
  | Exited => Exited
  end.

Notation "'do' x <- c ; k" := (obind c (fun x => k))
  (at level 10, x pattern, c at level 100, k at level 200,
   format "'[v' 'do'  x  <-  c ; '/' k ']'").

(** ** Types.h *)

Module ColorSpace.

Inductive Type_ : Set := UNKNOWN | GRAYSCALE | RGB | RGBA.

Definition calculateNumberOfChannels (colorSpace : Type_) : Z :=
  match colorSpace with
  | RGB => 3
  | RGBA => 4
  | GRAYSCALE => 1
  | _ => 0
  end.

End ColorSpace.

#[global] Instance ColorSpace_eq_dec : EqDecision ColorSpace.Type_.
Proof. solve_decision. Defined.

(** ** The free store *)

Inductive cell : Set :=
  | Indeterminate            (* storage that was never written *)
  | Val (b : byte).

#[global] Instance byte_eq_dec : EqDecision byte.
Proof. intros x y. exact (Byte.byte_eq_dec x y). Defined.

#[global] Instance cell_eq_dec : EqDecision cell.
Proof. solve_decision. Defined.

Definition block_id := positive.

Abbreviation store := (gmap block_id (list cell)).

Module Store.

(** [new T[n]]: a fresh block of [n] cells of indeterminate value.
    Exhaustion of the free store ([std::bad_alloc]) is not modelled. *)
Definition new_array (n : Z) (h : store) : block_id * store :=
  let p := fresh (dom h) in
  (p, <[p := replicate (Z.to_nat n) Indeterminate]> h).

(** [delete[] p]: nothing for [nullptr]; undefined for a block that is not
    live. *)
Definition delete_array (p : option block_id) (h : store) : outcome store :=
  match p with
  | None => Ret h
  | Some q =>
      match h !! q with
      | Some _ => Ret (delete q h)
      | None => Undefined
      end
  end.

(** Number of cells of the array [p] points to ([0] for [nullptr] and for a
    block that is not live). *)
Definition allocated (p : option block_id) (h : store) : Z :=
  match p with
  | None => 0
  | Some q =>
      match h !! q with
      | Some cells => Z.of_nat (length cells)
      | None => 0
      end
  end.

(** [memcpy(dst, src, n)] between the starts of two arrays.  A copy of zero
    bytes does nothing; otherwise both blocks must be live, distinct and at
    least [n] cells long.  This is the contract the C standard gives the
    call, under which copying between overlapping objects is undefined; what
    an implementation does beyond it, such as copying an array onto itself
    unharmed, is not modelled. *)
Definition memcpy (dst src : option block_id) (n : Z) (h : store) : outcome store :=
  if n =? 0 then Ret h
  else
    match dst, src with
    | Some d, Some s =>
        match h !! d, h !! s with
        | Some dcells, Some scells =>
            if decide (d <> s /\ n <= Z.of_nat (length dcells)
                       /\ n <= Z.of_nat (length scells))
            then Ret (<[d := take (Z.to_nat n) scells ++ drop (Z.to_nat n) dcells]> h)
            else Undefined
        | _, _ => Undefined
        end
    | _, _ => Undefined
    end.

(** Reading and writing one cell through a pointer [(p, off)]. *)
Definition load (p : block_id) (off : Z) (h : store) : outcome cell :=
  match h !! p with
  | Some cells =>
      if decide (0 <= off)
      then match cells !! Z.to_nat off with
           | Some c => Ret c
           | None => Undefined
           end
      else Undefined
  | None => Undefined
  end.

Definition store_cell (p : block_id) (off : Z) (c : cell) (h : store) : outcome store :=
  match h !! p with
  | Some cells =>
      if decide (0 <= off < Z.of_nat (length cells))
      then Ret (<[p := <[Z.to_nat off := c]> cells]> h)
      else Undefined
  | None => Undefined
  end.

(** Reading and writing [n] consecutive cells, lowest address first. *)
Fixpoint load_n (p : block_id) (off : Z) (n : nat) (h : store) : outcome (list cell) :=
  match n with
  | O => Ret []
  | S n' =>
      do c <- load p off h;
      do cs <- load_n p (off + 1) n' h;
      Ret (c :: cs)
  end.

Fixpoint store_n (p : block_id) (off : Z) (cs : list cell) (h : store) : outcome store :=
  match cs with
  | [] => Ret h
  | c :: cs' =>
      do h' <- store_cell p off c h;
      store_n p (off + 1) cs' h'
  end.

End Store.

(** ** Image.h, instantiated at [Channel = BYTE] *)

Module Image.

Import ColorSpace.

(** [sizeof(BYTE)] and [sizeof(Channel)] for [ImageByte]. *)
Definition sizeof_BYTE : Z := 1.
Definition sizeof_Channel : Z := 1.

Record t : Type := mk {
  mColorSpace : ColorSpace.Type_;
  mBpp : Z;                    (* int *)
  mWidth : Z;                  (* unsigned int *)
  mHeight : Z;                 (* unsigned int *)
  mRowSize : Z;                (* unsigned int *)
  mNumberOfChannels : Z;       (* int *)
  mData : option block_id      (* Channel* *)
}.

(** [int * size_t * int] is computed in [size_t] and returned as [int]. *)
Definition calculateBpp (colorSpace : ColorSpace.Type_) : Z :=
  to_int (to_size_t (to_size_t (to_size_t (calculateNumberOfChannels colorSpace)
                                * sizeof_Channel) * 8)).

(** [( (width * bpp + 31) & ~31 ) >> 3] in [unsigned int]. *)
Definition calculateRowSize (width bpp : Z) : Z :=
  Z.shiftr
    (Z.land (to_unsigned (to_unsigned (width * to_unsigned bpp) + 31))
            (to_unsigned (Z.lnot 31)))
    3.

(** [Image()] *)
Definition Image_default : t :=
  {| mColorSpace := RGB;
     mBpp := 0;
     mWidth := 0;
     mHeight := 0;
     mRowSize := 0;
     mNumberOfChannels := 0;
     mData := None |}.

(** [Image(width, height, colorSpace, data)] *)
Definition Image_new (width height : Z) (colorSpace : ColorSpace.Type_)
    (data : option block_id) (h : store) : outcome (t * store) :=
  let bpp := calculateBpp colorSpace in
  let rowSize := calculateRowSize width bpp in
  let '(p, h1) := Store.new_array (to_unsigned (rowSize * height)) h in
  let this :=
    {| mColorSpace := colorSpace;
       mBpp := bpp;
       mWidth := width;
       mHeight := height;
       mRowSize := rowSize;
       mNumberOfChannels := calculateNumberOfChannels colorSpace;
       mData := Some p |} in
  match data with
  | Some _ =>
      do h2 <- Store.memcpy (Some p) data
                 (to_size_t (to_size_t (sizeof_BYTE * rowSize) * height)) h1;
      Ret (this, h2)
  | None => Ret (this, h1)
  end.

Definition getWidth (this : t) : Z := mWidth this.
Definition getHeight (this : t) : Z := mHeight this.
Definition getRowSize (this : t) : Z := mRowSize this.
Definition getColorSpace (this : t) : ColorSpace.Type_ := mColorSpace this.
Definition getNumberOfChannels (this : t) : Z := mNumberOfChannels this.
Definition getData (this : t) : option block_id := mData this.

(** [Image(const Image&)] delegates to the four-argument constructor. *)
Definition Image_copy (image : t) (h : store) : outcome (t * store) :=
  Image_new (getWidth image) (getHeight image) (getColorSpace image)
            (getData image) h.

(** [destroy()] *)
Definition destroy (this : t) (h : store) : outcome (t * store) :=
  do h' <- Store.delete_array (mData this) h;
  Ret ({| mColorSpace := RGB;
          mBpp := 0;
          mWidth := 0;
          mHeight := 0;
          mRowSize := 0;
          mNumberOfChannels := 0;
          mData := None |}, h').

(** [create(width, height, colorSpace, data)] *)
Definition create (width height : Z) (colorSpace : ColorSpace.Type_)
    (data : option block_id) (this : t) (h : store) : outcome (t * store) :=
  do (_, h0) <- destroy this h;
  let bpp := calculateBpp colorSpace in
  let rowSize := calculateRowSize width bpp in
  let '(p, h1) := Store.new_array (to_unsigned (rowSize * height)) h0 in
  let this' :=
    {| mColorSpace := colorSpace;
       mBpp := bpp;
       mWidth := width;
       mHeight := height;
       mRowSize := rowSize;
       mNumberOfChannels := calculateNumberOfChannels colorSpace;
       mData := Some p |} in
  match data with
  | Some _ =>
      do h2 <- Store.memcpy (Some p) data
                 (to_size_t (to_size_t (sizeof_BYTE * rowSize) * height)) h1;
      Ret (this', h2)
  | None => Ret (this', h1)
  end.

(** [operator()(row, column)]: the pointer
    [mData + (row * mRowSize + column * mNumberOfChannels)], the sum being
    computed in [unsigned int].  Arithmetic on [nullptr] has no result. *)
Definition pixel_offset (this : t) (row column : Z) : Z :=
  to_unsigned (to_unsigned (row * mRowSize this)
               + to_unsigned (column * to_unsigned (mNumberOfChannels this))).

Definition pixelAt (this : t) (row column : Z) : option (block_id * Z) :=
  match mData this with
  | Some p => Some (p, pixel_offset this row column)
  | None => None
  end.

(** The object with [mData] replaced. *)
Definition with_data (this : t) (p : option block_id) : t :=
  {| mColorSpace := mColorSpace this;
     mBpp := mBpp this;
     mWidth := mWidth this;
     mHeight := mHeight this;
     mRowSize := mRowSize this;
     mNumberOfChannels := mNumberOfChannels this;
     mData := p |}.

(** [operator=(image)]: the fields are overwritten first, the two sizes are
    computed afterwards. *)
Definition assign (this image : t) (h : store) : outcome (t * store) :=
  let this1 :=
    {| mColorSpace := mColorSpace image;
       mBpp := mBpp image;
       mWidth := mWidth image;
       mHeight := mHeight image;
       mRowSize := mRowSize image;
       mNumberOfChannels := mNumberOfChannels image;
       mData := mData this |} in
  let sourceSize := to_unsigned (mRowSize image * mHeight image) in
  let destSize := to_unsigned (mRowSize this1 * mHeight this1) in
  do (this2, h1) <-
    (if decide (sourceSize <> destSize)
     then
       do h0 <- Store.delete_array (mData this1) h;
       let '(p, h') := Store.new_array sourceSize h0 in
       Ret (with_data this1 (Some p), h')
     else Ret (this1, h));
  do h2 <- Store.memcpy (mData this2) (mData image) sourceSize h1;
  Ret (this2, h2).

(** Reading and writing the channel values of one pixel through the
    accessor: [image(row, column)[k]] for [k = 0, 1, ...]. *)
Definition read_pixel (this : t) (row column : Z) (n : nat) (h : store)
    : outcome (list cell) :=
  match pixelAt this row column with
  | Some (p, off) => Store.load_n p off n h
  | None => Undefined
  end.

Definition write_pixel (this : t) (row column : Z) (values : list byte) (h : store)
    : outcome store :=
  match pixelAt this row column with
  | Some (p, off) => Store.store_n p off (Val <$> values) h
  | None => Undefined
  end.

(** Number of cells of the array [mData] points to. *)
Definition allocated (this : t) (h : store) : Z := Store.allocated (mData this) h.

(** [~Image()]: [delete[] mData]. *)
Definition Image_dtor (this : t) (h : store) : outcome store :=
  Store.delete_array (mData this) h.

End Image.

(** ** The environment of [ImageFile]: files, libjpeg, and a trace *)

Module Env.

Inductive mode : Set := RB | WB.

(** The calls into libjpeg that the two bindings make. *)
Inductive jpeg_call : Set :=
  | jpeg_create_decompress
  | jpeg_stdio_src
  | jpeg_read_header
  | jpeg_start_decompress
  | jpeg_read_scanlines
  | jpeg_finish_decompress
  | jpeg_destroy_decompress
  | jpeg_create_compress
  | jpeg_stdio_dest
  | jpeg_set_defaults
  | jpeg_set_quality (quality : Z)
  | jpeg_start_compress
  | jpeg_write_scanlines
  | jpeg_finish_compress
  | jpeg_destroy_compress.

(** What a call leaves behind: a file that was opened ([fopen] that did not
    return [nullptr]), a file that was closed, a call into the codec. *)
Inductive event : Set :=
  | Efopen (path : string) (m : mode)
  | Efclose (path : string)
  | Ejpeg (c : jpeg_call).

#[global] Instance mode_eq_dec : EqDecision mode.
Proof. solve_decision. Defined.
#[global] Instance jpeg_call_eq_dec : EqDecision jpeg_call.
Proof. solve_decision. Defined.
#[global] Instance event_eq_dec : EqDecision event.
Proof. solve_decision. Defined.

Record world : Type := mkWorld {
  heap : store;                      (* the free store *)
  files : gmap string (list byte);   (* the regular files and their contents *)
  denied : gset string;              (* paths that cannot be opened at all *)
  events : list event                (* what has happened so far, oldest first *)
}.

Definition with_heap (w : world) (h : store) : world :=
  {| heap := h; files := files w; denied := denied w; events := events w |}.

Definition with_files (w : world) (f : gmap string (list byte)) : world :=
  {| heap := heap w; files := f; denied := denied w; events := events w |}.

Definition log (e : event) (w : world) : world :=
  {| heap := heap w; files := files w; denied := denied w;
     events := events w ++ [e] |}.

(** [fopen(path, "rb")] needs an existing file; [fopen(path, "wb")] creates
    the file or truncates it to length zero.  The handle is identified with
    the path. *)
Definition fopen (path : string) (m : mode) (w : world) : option world :=
  if decide (path ∈ denied w) then None
  else
    match m with
    | RB =>
        match files w !! path with
        | Some _ => Some (log (Efopen path RB) w)
        | None => None
        end
    | WB => Some (log (Efopen path WB) (with_files w (<[path := []]> (files w))))
    end.

Definition fclose (path : string) (w : world) : world := log (Efclose path) w.

(** Bytes the codec writes to its destination file. *)
Definition fwrite (path : string) (bytes : list byte) (w : world) : world :=
  with_files w (<[path := default [] (files w !! path) ++ bytes]> (files w)).

(** Files opened and not closed, codec contexts created and not destroyed. *)
Definition file_delta (e : event) : Z :=
  match e with
  | Efopen _ _ => 1
  | Efclose _ => -1
  | Ejpeg _ => 0
  end.

Definition codec_delta (e : event) : Z :=
  match e with
  | Ejpeg jpeg_create_decompress | Ejpeg jpeg_create_compress => 1
  | Ejpeg jpeg_destroy_decompress | Ejpeg jpeg_destroy_compress => -1
  | _ => 0
  end.

Definition open_files (evs : list event) : Z :=
  foldr (fun e n => file_delta e + n) 0 evs.

Definition live_codecs (evs : list event) : Z :=
  foldr (fun e n => codec_delta e + n) 0 evs.

(** Every file opened between [w] and [w'] was closed, and every codec
    context created was destroyed. *)
Definition released (w w' : world) : Prop :=
  open_files (events w') = open_files (events w)
  /\ live_codecs (events w') = live_codecs (events w).

(** The calls into the codec made so far. *)
Definition codec_calls (evs : list event) : list jpeg_call :=
  omap (fun e => match e with Ejpeg c => Some c | _ => None end) evs.

End Env.

(** ** jpeglib.h, as far as the bindings use it *)

Module Jpeg.

Inductive J_COLOR_SPACE : Set :=
  | JCS_UNKNOWN | JCS_GRAYSCALE | JCS_RGB | JCS_YCbCr | JCS_CMYK | JCS_YCCK
  | JCS_EXT_RGB | JCS_EXT_RGBX | JCS_EXT_BGR | JCS_EXT_BGRX | JCS_EXT_XBGR
  | JCS_EXT_XRGB | JCS_EXT_RGBA | JCS_EXT_BGRA | JCS_EXT_ABGR | JCS_EXT_ARGB
  | JCS_RGB565.

Inductive J_DCT_METHOD : Set := JDCT_ISLOW | JDCT_IFAST | JDCT_FLOAT.

(** The fields of [jpeg_decompress_struct] the decoder binding reads, and
    the data of the source file. *)
Record jpeg_decompress_struct : Type := mkD {
  src : list byte;
  image_height : Z;
  output_width : Z;
  output_height : Z;
  out_color_space : J_COLOR_SPACE;
  output_scanline : Z
}.

(** The fields of [jpeg_compress_struct] the encoder binding writes. *)
Record jpeg_compress_struct : Type := mkC {
  c_image_width : Z;
  c_image_height : Z;
  input_components : Z;
  in_color_space : J_COLOR_SPACE;
  num_components : Z;
  dct_method : J_DCT_METHOD;
  c_quality : Z;
  next_scanline : Z
}.

(** The library itself is a parameter.  A result [None] is a fatal error:
    with [jpeg_std_error] the handler [error_exit] terminates the process.
    [read_scanline] is [jpeg_read_scanlines] for one line: the row at
    [output_scanline]; [write_scanline] is [jpeg_write_scanlines] for one
    line: the bytes it emits.  Both advance the line counter by one. *)
Class LibJpeg : Type := {
  read_header : list byte -> option jpeg_decompress_struct;
  start_decompress : jpeg_decompress_struct -> option jpeg_decompress_struct;
  read_scanline : jpeg_decompress_struct -> option (list byte);
  finish_decompress : jpeg_decompress_struct -> bool;
  set_defaults : jpeg_compress_struct -> option jpeg_compress_struct;
  start_compress : jpeg_compress_struct -> option (list byte);
  write_scanline : jpeg_compress_struct -> list cell -> option (list byte);
  finish_compress : jpeg_compress_struct -> option (list byte)
}.

Definition advance_output (cInfo : jpeg_decompress_struct) : jpeg_decompress_struct :=
  {| src := src cInfo;
     image_height := image_height cInfo;
     output_width := output_width cInfo;
     output_height := output_height cInfo;
     out_color_space := out_color_space cInfo;
     output_scanline := to_unsigned (output_scanline cInfo + 1) |}.

Definition advance_input (cinfo : jpeg_compress_struct) : jpeg_compress_struct :=
  {| c_image_width := c_image_width cinfo;
     c_image_height := c_image_height cinfo;
     input_components := input_components cinfo;
     in_color_space := in_color_space cinfo;
     num_components := num_components cinfo;
     dct_method := dct_method cinfo;
     c_quality := c_quality cinfo;
     next_scanline := to_unsigned (next_scanline cinfo + 1) |}.

(** A fatal error of the library. *)
Definition fatal {A : Type} (r : option A) : outcome A :=
  match r with
  | Some a => Ret a
  | None => Exited
  end.

End Jpeg.

(** ** ImageFile *)

Module ImageFile.

Import Env Jpeg.

Module Format.
Inductive t : Set := UNKNOWN | JPEG.
End Format.

(** [std::string::empty] *)
Definition empty (s : string) : bool :=
  match s with
  | EmptyString => true
  | String _ _ => false
  end.

Definition checkFileExtension (path : string) : Format.t :=
  if empty path then Format.UNKNOWN else Format.JPEG.

Section Bindings.

Context `{L : LibJpeg}.

(** The loop of [loadJPEG]: one pass stores the row the library delivers at
    [image(row, 0)] and advances [output_scanline] by one, so the loop
    [while (output_scanline < image_height)] makes
    [image_height - output_scanline] passes. *)
Fixpoint read_rows (passes : nat) (cInfo : jpeg_decompress_struct)
    (image : Image.t) (row : Z) (w : world)
    : outcome (jpeg_decompress_struct * world) :=
  match passes with
  | O => Ret (cInfo, w)
  | S passes' =>
      match Image.pixelAt image row 0 with
      | Some (p, off) =>
          do line <- fatal (read_scanline cInfo);
          do h' <- Store.store_n p off (Val <$> line) (heap w);
          read_rows passes' (advance_output cInfo) image (to_unsigned (row + 1))
                    (log (Ejpeg jpeg_read_scanlines) (with_heap w h'))
      | None => Undefined
      end
  end.

Definition loadJPEG (path : string) (image : Image.t) (w : world)
    : outcome (bool * Image.t * world) :=
  match fopen path RB w with
  | None => Ret (false, image, w)
  | Some w1 =>
      let data := default [] (files w !! path) in
      let w2 := log (Ejpeg jpeg_create_decompress) w1 in
      let w3 := log (Ejpeg jpeg_stdio_src) w2 in
      do cInfo <- fatal (read_header data);
      let w4 := log (Ejpeg jpeg_read_header) w3 in
      do cInfo <- fatal (start_decompress cInfo);
      let w5 := log (Ejpeg jpeg_start_decompress) w4 in
      let colorSpace :=
        match out_color_space cInfo with
        | JCS_GRAYSCALE => Some ColorSpace.GRAYSCALE
        | JCS_RGB | JCS_EXT_RGB => Some ColorSpace.RGB
        | JCS_EXT_RGBA => Some ColorSpace.RGBA
        | _ => None
        end in
      match colorSpace with
      | None =>
          if finish_decompress cInfo
          then
            let w6 := log (Ejpeg jpeg_finish_decompress) w5 in
            let w7 := log (Ejpeg jpeg_destroy_decompress) w6 in
            Ret (false, image, fclose path w7)
          else Exited
      | Some colorSpace =>
          do (image', h') <-
            Image.create (output_width cInfo) (output_height cInfo) colorSpace
                         None image (heap w5);
          let w6 := with_heap w5 h' in
          do (cInfo', w7) <-
            read_rows (Z.to_nat (image_height cInfo - output_scanline cInfo))
                      cInfo image' 0 w6;
          if finish_decompress cInfo'
          then
            let w8 := log (Ejpeg jpeg_finish_decompress) w7 in
            let w9 := log (Ejpeg jpeg_destroy_decompress) w8 in
            Ret (true, image', fclose path w9)
          else Exited
      end
  end.

(** The loop of [saveJPEG]: one pass hands the row at [image(row, 0)] to the
    library, which reads [image_width * input_components] samples from it,
    appends what it emits to the file and advances [next_scanline] by one. *)
Fixpoint write_rows (passes : nat) (cinfo : jpeg_compress_struct)
    (path : string) (image : Image.t) (row : Z) (w : world)
    : outcome (jpeg_compress_struct * world) :=
  match passes with
  | O => Ret (cinfo, w)
  | S passes' =>
      match Image.pixelAt image (to_unsigned row) 0 with
      | Some (p, off) =>
          do line <- Store.load_n p off
                       (Z.to_nat (c_image_width cinfo * input_components cinfo))
                       (heap w);
          do bytes <- fatal (write_scanline cinfo line);
          write_rows passes' (advance_input cinfo) path image (to_int (row + 1))
                     (log (Ejpeg jpeg_write_scanlines) (fwrite path bytes w))
      | None => Undefined
      end
  end.

Definition saveJPEG (path : string) (image : Image.t) (quality : Z) (w : world)
    : outcome (bool * world) :=
  match fopen path WB w with
  | None => Ret (false, w)
  | Some w1 =>
      let w2 := log (Ejpeg jpeg_create_compress) w1 in
      let w3 := log (Ejpeg jpeg_stdio_dest) w2 in
      let in_color_space :=
        match Image.getColorSpace image with
        | ColorSpace.GRAYSCALE => Some JCS_GRAYSCALE
        | ColorSpace.RGB => Some JCS_RGB
        | ColorSpace.RGBA => Some JCS_EXT_RGBA
        | _ => None
        end in
      match in_color_space with
      | None => Ret (false, w3)
      | Some in_color_space =>
          let cinfo :=
            {| c_image_width := Image.getWidth image;
               c_image_height := Image.getHeight image;
               input_components := Image.getNumberOfChannels image;
               in_color_space := in_color_space;
               num_components := 0;
               dct_method := JDCT_ISLOW;
               c_quality := 0;
               next_scanline := 0 |} in
          do cinfo <- fatal (set_defaults cinfo);
          let w4 := log (Ejpeg jpeg_set_defaults) w3 in
          let cinfo :=
            {| c_image_width := c_image_width cinfo;
               c_image_height := c_image_height cinfo;
               input_components := input_components cinfo;
               in_color_space := Jpeg.in_color_space cinfo;
               num_components := Image.getNumberOfChannels image;
               dct_method := JDCT_FLOAT;
               c_quality := quality;
               next_scanline := next_scanline cinfo |} in
          let w5 := log (Ejpeg (jpeg_set_quality quality)) w4 in
          do header <- fatal (start_compress cinfo);
          let w6 := log (Ejpeg jpeg_start_compress) (fwrite path header w5) in
          do (cinfo', w7) <-
            write_rows (Z.to_nat (c_image_height cinfo - next_scanline cinfo))
                       cinfo path image 0 w6;
          do trailer <- fatal (finish_compress cinfo');
          let w8 := log (Ejpeg jpeg_finish_compress) (fwrite path trailer w7) in
          let w9 := log (Ejpeg jpeg_destroy_compress) w8 in
          Ret (true, fclose path w9)
      end
  end.

Definition load (path : string) (image : Image.t) (w : world)
    : outcome (bool * Image.t * world) :=
  match checkFileExtension path with
  | Format.JPEG => loadJPEG path image w
  | _ => Ret (false, image, w)
  end.

Definition save (path : string) (image : Image.t) (w : world)
    : outcome (bool * world) :=
  match checkFileExtension path with
  | Format.JPEG => saveJPEG path image 100 w
  | _ => Ret (false, w)
  end.

End Bindings.

End ImageFile.

(** ** ImageOperator *)

Module ImageOperator.

Definition areCompatible (imageA imageB : Image.t) : bool :=
  (Image.getWidth imageA =? Image.getWidth imageB)
  && (Image.getHeight imageA =? Image.getHeight imageB)
  && bool_decide (Image.getColorSpace imageA = Image.getColorSpace imageB).

(** [add(outputImage, imageA, imageB)], as far as it is written: the
    addition itself is a TODO of the source.  [create] is only reached for
    an output that is compatible with neither input, hence for an object
    other than the two inputs. *)
Definition add (outputImage imageA imageB : Image.t) (h : store)
    : outcome (Image.t * store) :=
  if negb (areCompatible imageA imageB) then Ret (outputImage, h)
  else if negb (areCompatible outputImage imageA)
  then Image.create (Image.getWidth imageA) (Image.getHeight imageA)
                    (Image.getColorSpace imageA) None outputImage h
  else Ret (outputImage, h).

End ImageOperator.

(** ** The sample program *)

Module Sample.

Import Env Jpeg.

Definition newline : string := String (Ascii.ascii_of_nat 10) EmptyString.

Section Main.

Context `{L : LibJpeg}.

(** [main(argc, argv)] with [argv] as a list of [argc] strings.  The result
    is the exit status, what was written to [std::cout], and the world.
    [exit(1)] leaves without running the destructor of [image];
    [return 0] runs it. *)
Definition main (argv : list string) (w : world)
    : outcome (Z * list string * world) :=
  if decide (Z.of_nat (length argv) <> 2) then Ret (1, [], w)
  else
    let imageFilePath := default EmptyString (argv !! 1%nat) in
    let image := Image.Image_default in
    do (ok, image, w1) <- ImageFile.load imageFilePath image w;
    if negb ok
    then Ret (1, [String.append "Fail to open file." newline], w1)
    else
      do (_, w2) <- ImageFile.save "lena_copy.jpg" image w1;
      do h <- Image.Image_dtor image (heap w2);
      Ret (0, [], with_heap w2 h).

End Main.

End Sample.

(** * Vocabulary of the properties *)

Import ColorSpace.

(** [mData] is [nullptr] or points to a live array. *)
Definition live (this : Image.t) (h : store) : Prop :=
  match Image.mData this with
  | None => True
  | Some p => is_Some (h !! p)
  end.

(** The store after [delete[] mData]. *)
Definition released_store (this : Image.t) (h : store) : store :=
  match Image.mData this with
  | None => h
  | Some p => delete p h
  end.

(** The row size as the specification writes it,
    [((width * channelCount(colorSpace) * 8 + 31) & ~31) >> 3], over the
    integers: nothing wraps around, and [~31] clears the five low bits. *)
Definition row_size_formula (width : Z) (colorSpace : ColorSpace.Type_) : Z :=
  Z.shiftr
    (Z.land (width * calculateNumberOfChannels colorSpace * 8 + 31) (Z.lnot 31))
    3.

(** Two images in one store: [a], 2 x 2 RGB (rows of 8 bytes, 16 bytes), and
    [b], 1 x 1 GRAYSCALE (one row of 4 bytes). *)
Definition rgb_2x2_and_gray_1x1 : outcome (Image.t * Image.t * store) :=
  do (a, h0) <- Image.create 2 2 RGB None Image.Image_default ∅;
  do (b, h) <- Image.create 1 1 GRAYSCALE None Image.Image_default h0;
  Ret (a, b, h).

(** The layout in which the rows of an image lie in its buffer one after the
    other: the channel count is the one of the color space, a row has room
    for [width] pixels, the buffer has room for [height] rows, and
    [rowSize * height] is in the range of [unsigned int]. *)
Definition rows_in_buffer (this : Image.t) (h : store) : Prop :=
  exists p cells,
    Image.mData this = Some p
    /\ h !! p = Some cells
    /\ Image.mNumberOfChannels this
       = calculateNumberOfChannels (Image.mColorSpace this)
    /\ Image.mWidth this * Image.mNumberOfChannels this <= Image.mRowSize this
    /\ Image.mRowSize this * Image.mHeight this <= Z.of_nat (length cells)
    /\ Image.mRowSize this * Image.mHeight this < 2 ^ 32.

(** The 3 x 1 RGB image of the specification's scenario, as [create] makes
    it in the empty store, and that store. *)
Definition rgb_3x1 : Image.t :=
  {| Image.mColorSpace := RGB; Image.mBpp := 24; Image.mWidth := 3;
     Image.mHeight := 1; Image.mRowSize := 12; Image.mNumberOfChannels := 3;
     Image.mData := Some 1%positive |}.

Definition rgb_3x1_store : store := {[ 1%positive := replicate 12 Indeterminate ]}.

(** A 1 x 1 image of unknown color space, as [create] makes it in the empty
    store, and that store. *)
Definition unknown_1x1 : Image.t :=
  {| Image.mColorSpace := UNKNOWN; Image.mBpp := 0; Image.mWidth := 1;
     Image.mHeight := 1; Image.mRowSize := 0; Image.mNumberOfChannels := 0;
     Image.mData := Some 1%positive |}.

Definition unknown_1x1_store : store := {[ 1%positive := [] ]}.

(** Two instances of the library, to run the bindings on concrete inputs.
    [abort_codec] reports a fatal error at every call that can fail.
    [raw_codec] reads and writes an uncompressed format: one byte each for
    the number of components (1, 3, or 4 for CMYK), the width and the height,
    then the rows; like libjpeg it refuses to finish a decompression before
    all rows were read and to start the compression of an empty image. *)
Definition abort_codec : Jpeg.LibJpeg :=
  {| Jpeg.read_header := fun _ => None;
     Jpeg.start_decompress := fun _ => None;
     Jpeg.read_scanline := fun _ => None;
     Jpeg.finish_decompress := fun _ => false;
     Jpeg.set_defaults := fun _ => None;
     Jpeg.start_compress := fun _ => None;
     Jpeg.write_scanline := fun _ _ => None;
     Jpeg.finish_compress := fun _ => None |}.

Definition byte_to_Z (b : byte) : Z := Z.of_N (Byte.to_N b).

Definition byte_of_Z (z : Z) : byte :=
  default x00 (Byte.of_N (Z.to_N (z mod 256))).

Definition raw_components (data : list byte) : Z :=
  match data with
  | c :: _ => byte_to_Z c
  | [] => 0
  end.

Definition raw_codec : Jpeg.LibJpeg :=
  {| Jpeg.read_header := fun data =>
       match data with
       | _ :: _ :: height :: _ =>
           Some {| Jpeg.src := data;
                   Jpeg.image_height := byte_to_Z height;
                   Jpeg.output_width := 0;
                   Jpeg.output_height := 0;
                   Jpeg.out_color_space := Jpeg.JCS_UNKNOWN;
                   Jpeg.output_scanline := 0 |}
       | _ => None
       end;
     Jpeg.start_decompress := fun cInfo =>
       match Jpeg.src cInfo with
       | components :: width :: height :: _ =>
           let out_color_space :=
             match byte_to_Z components with
             | 1 => Some Jpeg.JCS_GRAYSCALE
             | 3 => Some Jpeg.JCS_RGB
             | 4 => Some Jpeg.JCS_CMYK
             | _ => None
             end in
           match out_color_space with
           | Some cs =>
               Some {| Jpeg.src := Jpeg.src cInfo;
                       Jpeg.image_height := Jpeg.image_height cInfo;
                       Jpeg.output_width := byte_to_Z width;
                       Jpeg.output_height := byte_to_Z height;
                       Jpeg.out_color_space := cs;
                       Jpeg.output_scanline := 0 |}
           | None => None
           end
       | _ => None
       end;
     Jpeg.read_scanline := fun cInfo =>
       let n := Z.to_nat (Jpeg.output_width cInfo * raw_components (Jpeg.src cInfo)) in
       Some (take n (drop (3 + Z.to_nat (Jpeg.output_scanline cInfo) * n)
                          (Jpeg.src cInfo)));
     Jpeg.finish_decompress := fun cInfo =>
       Jpeg.output_height cInfo <=? Jpeg.output_scanline cInfo;
     Jpeg.set_defaults := fun cinfo => Some cinfo;
     Jpeg.start_compress := fun cinfo =>
       if (0 <? Jpeg.c_image_width cinfo) && (0 <? Jpeg.c_image_height cinfo)
       then Some [byte_of_Z (Jpeg.input_components cinfo);
                  byte_of_Z (Jpeg.c_image_width cinfo);
                  byte_of_Z (Jpeg.c_image_height cinfo)]
       else None;
     Jpeg.write_scanline := fun _ line =>
       Some ((fun c => match c with Val b => b | Indeterminate => x00 end) <$> line);
     Jpeg.finish_compress := fun _ => Some [] |}.

(** A world with an empty store, no file, no path that is denied and no
    event, and the same world with one file. *)
Definition world0 : Env.world :=
  {| Env.heap := ∅; Env.files := ∅; Env.denied := ∅; Env.events := [] |}.

Definition world_with_file (path : string) (data : list byte) (h : store) : Env.world :=
  {| Env.heap := h; Env.files := {[ path := data ]}; Env.denied := ∅;
     Env.events := [] |}.

(** The state in which [create] and the constructors leave an image: the
    derived fields are the ones computed from the width and the color space,
    and the buffer is a live array of [rowSize * height] elements, the
    product taken in [unsigned int]. *)
Definition as_created (this : Image.t) (h : store) : Prop :=
  Image.mBpp this = Image.calculateBpp (Image.mColorSpace this)
  /\ Image.mRowSize this = Image.calculateRowSize (Image.mWidth this) (Image.mBpp this)
  /\ Image.mNumberOfChannels this
     = calculateNumberOfChannels (Image.mColorSpace this)
  /\ exists p cells,
       Image.mData this = Some p
       /\ h !! p = Some cells
       /\ Z.of_nat (length cells)
          = to_unsigned (Image.mRowSize this * Image.mHeight this).

(** The bytes of a 2 x 1 RGB picture in the format of [raw_codec]. *)
Definition raw_rgb_2x1 : list byte :=
  [x03; x02; x01; x0a; x0b; x0c; x10; x11; x12].

(** Two stores with the same live arrays, of the same lengths. *)
Definition same_shape (h h' : store) : Prop :=
  forall q, Store.allocated (Some q) h' = Store.allocated (Some q) h
            /\ (is_Some (h' !! q) <-> is_Some (h !! q)).

(** The events of a decoding run that opened the file and read [k] rows. *)
Definition decode_trace (path : string) (k : nat) : list Env.event :=
  [Env.Efopen path Env.RB; Env.Ejpeg Env.jpeg_create_decompress;
   Env.Ejpeg Env.jpeg_stdio_src; Env.Ejpeg Env.jpeg_read_header;
   Env.Ejpeg Env.jpeg_start_decompress]
  ++ replicate k (Env.Ejpeg Env.jpeg_read_scanlines)
  ++ [Env.Ejpeg Env.jpeg_finish_decompress; Env.Ejpeg Env.jpeg_destroy_decompress;
      Env.Efclose path].

(** The events of an encoding run that wrote [k] rows. *)
Definition encode_trace (path : string) (quality : Z) (k : nat) : list Env.event :=
  [Env.Efopen path Env.WB; Env.Ejpeg Env.jpeg_create_compress;
   Env.Ejpeg Env.jpeg_stdio_dest; Env.Ejpeg Env.jpeg_set_defaults;
   Env.Ejpeg (Env.jpeg_set_quality quality); Env.Ejpeg Env.jpeg_start_compress]
  ++ replicate k (Env.Ejpeg Env.jpeg_write_scanlines)
  ++ [Env.Ejpeg Env.jpeg_finish_compress; Env.Ejpeg Env.jpeg_destroy_compress;
      Env.Efclose path].

(** What the bindings rely on when they call [jpeg_set_defaults]: it leaves
    the dimensions, the number of input components and the line counter of
    the compression structure alone. *)
Definition defaults_keep_dimensions (L : Jpeg.LibJpeg) : Prop :=
  forall cinfo cinfo',
    Jpeg.set_defaults cinfo = Some cinfo' ->
    Jpeg.c_image_width cinfo' = Jpeg.c_image_width cinfo
    /\ Jpeg.c_image_height cinfo' = Jpeg.c_image_height cinfo
    /\ Jpeg.input_components cinfo' = Jpeg.input_components cinfo
    /\ Jpeg.next_scanline cinfo' = Jpeg.next_scanline cinfo.

(** Samples per pixel that libjpeg delivers for an output color space. *)
Definition output_components (cs : Jpeg.J_COLOR_SPACE) : Z :=
  match cs with
  | Jpeg.JCS_UNKNOWN => 0
  | Jpeg.JCS_GRAYSCALE => 1
  | Jpeg.JCS_RGB565 => 2
  | Jpeg.JCS_RGB | Jpeg.JCS_YCbCr | Jpeg.JCS_EXT_RGB | Jpeg.JCS_EXT_BGR => 3
  | _ => 4
  end.

(** What the decoder binding relies on, for the structure [cInfo] that
    [jpeg_start_decompress] returned: output starts at line 0, the output is
    not scaled (the loop counts up to [image_height], the buffer has
    [output_height] rows), the dimensions are those of [unsigned int], and
    every row the library delivers has at most
    [output_width * output_components] samples. *)
Definition decoder_in_bounds (L : Jpeg.LibJpeg) (cInfo : Jpeg.jpeg_decompress_struct)
    : Prop :=
  Jpeg.output_scanline cInfo = 0
  /\ Jpeg.image_height cInfo = Jpeg.output_height cInfo
  /\ 0 <= Jpeg.output_width cInfo
  /\ 0 <= Jpeg.output_height cInfo < 2 ^ 32
  /\ forall (k : nat) line,
       Jpeg.read_scanline (Nat.iter k Jpeg.advance_output cInfo) = Some line ->
       Z.of_nat (length line)
       <= Jpeg.output_width cInfo * output_components (Jpeg.out_color_space cInfo).

(** The dimensions of the stream do not make the size arithmetic of the
    image wrap around. *)
Definition decoder_fits (cInfo : Jpeg.jpeg_decompress_struct) : Prop :=
  let n := output_components (Jpeg.out_color_space cInfo) in
  Jpeg.output_width cInfo * n * 8 + 31 < 2 ^ 32
  /\ Image.calculateRowSize (Jpeg.output_width cInfo) (n * 8)
     * Jpeg.output_height cInfo < 2 ^ 32.

(** * Properties *)

(** ** Arithmetic of the row size *)

Section RowSize.

Lemma to_unsigned_small (x : Z) : 0 <= x < 2 ^ 32 -> to_unsigned x = x.
Proof. intros Hx. unfold to_unsigned. apply Z.mod_small. exact Hx. Qed.

Lemma to_unsigned_range (x : Z) : 0 <= to_unsigned x < 2 ^ 32.
Proof. unfold to_unsigned. apply Z.mod_pos_bound. lia. Qed.

(** Clearing the five low bits of an [unsigned int]. *)
Lemma land_not_31 (x : Z) :
  0 <= x < 2 ^ 32 -> Z.land x (to_unsigned (Z.lnot 31)) = 32 * (x / 32).
Proof.
  intros Hx.
  replace (to_unsigned (Z.lnot 31)) with (Z.land (Z.ones 32) (Z.lnot (Z.ones 5)))
    by reflexivity.
  rewrite Z.land_assoc, Z.land_ones by lia.
  rewrite (Z.mod_small x) by exact Hx.
  change (Z.land x (Z.lnot (Z.ones 5))) with (Z.ldiff x (Z.ones 5)).
  rewrite Z.ldiff_ones_r by lia.
  rewrite Z.shiftl_mul_pow2, Z.shiftr_div_pow2 by lia.
  change (2 ^ 5) with 32. lia.
Qed.

(** The row size is the number of 32-bit words that hold [width * bpp + 31]
    bits (the sum taken in [unsigned int]), counted in bytes. *)
Lemma calculateRowSize_words (width bpp : Z) :
  Image.calculateRowSize width bpp
  = 4 * (to_unsigned (to_unsigned (width * to_unsigned bpp) + 31) / 32).
Proof.
  unfold Image.calculateRowSize.
  rewrite land_not_31 by apply to_unsigned_range.
  rewrite Z.shiftr_div_pow2 by lia.
  change (2 ^ 3) with 8.
  set (q := to_unsigned (to_unsigned (width * to_unsigned bpp) + 31) / 32).
  replace (32 * q) with (4 * q * 8) by lia.
  apply Z.div_mul. lia.
Qed.

Lemma calculateRowSize_range (width bpp : Z) :
  0 <= Image.calculateRowSize width bpp < 2 ^ 32.
Proof.
  rewrite calculateRowSize_words.
  pose proof (to_unsigned_range (to_unsigned (width * to_unsigned bpp) + 31)) as Hr.
  set (x := to_unsigned (to_unsigned (width * to_unsigned bpp) + 31)) in *.
  assert (0 <= x / 32) by (apply Z.div_pos; lia).
  assert (x / 32 < 2 ^ 27).
  { apply Z.div_lt_upper_bound; [lia|]. change (32 * 2 ^ 27) with (2 ^ 32). lia. }
  change (2 ^ 27) with 134217728 in *. change (2 ^ 32) with 4294967296. lia.
Qed.

(** Without wrap-around the row size is the least multiple of four bytes
    that holds the [width * bpp] bits of a row. *)
Lemma calculateRowSize_exact (width bpp : Z) :
  0 <= width -> 0 <= bpp < 2 ^ 31 -> width * bpp + 31 < 2 ^ 32 ->
  Image.calculateRowSize width bpp = 4 * ((width * bpp + 31) / 32).
Proof.
  intros Hw Hb Hs.
  rewrite calculateRowSize_words.
  assert (0 <= width * bpp) by nia.
  rewrite (to_unsigned_small bpp) by lia.
  rewrite (to_unsigned_small (width * bpp)) by lia.
  rewrite to_unsigned_small by lia.
  reflexivity.
Qed.

Lemma calculateRowSize_holds_row (width bpp : Z) :
  0 <= width -> 0 <= bpp < 2 ^ 31 -> width * bpp + 31 < 2 ^ 32 ->
  width * bpp <= 8 * Image.calculateRowSize width bpp < width * bpp + 32.
Proof.
  intros Hw Hb Hs.
  rewrite calculateRowSize_exact by assumption.
  assert (0 <= width * bpp) by nia.
  pose proof (Z.div_mod (width * bpp + 31) 32 ltac:(lia)) as Hd.
  pose proof (Z.mod_pos_bound (width * bpp + 31) 32 ltac:(lia)) as Hm.
  lia.
Qed.

Lemma calculateBpp_channels (colorSpace : ColorSpace.Type_) :
  Image.calculateBpp colorSpace = calculateNumberOfChannels colorSpace * 8.
Proof. destruct colorSpace; reflexivity. Qed.

End RowSize.

(** ** The buffer and the object that owns it *)

Section Ownership.

Lemma destroy_returns (this : Image.t) (h : store) :
  live this h ->
  Image.destroy this h = Ret (Image.Image_default, released_store this h).
Proof.
  unfold live, released_store, Image.destroy, Store.delete_array.
  destruct (Image.mData this) as [p|]; [|reflexivity].
  intros [cells Hp]. rewrite Hp. reflexivity.
Qed.

Lemma new_array_fresh (n : Z) (h : store) :
  h !! (Store.new_array n h).1 = None.
Proof.
  unfold Store.new_array. simpl.
  apply not_elem_of_dom. apply is_fresh.
Qed.

Lemma new_array_lookup (n : Z) (h : store) :
  (Store.new_array n h).2 !! (Store.new_array n h).1
  = Some (replicate (Z.to_nat n) Indeterminate).
Proof. unfold Store.new_array. simpl. apply lookup_insert_eq. Qed.

(** [create] without source data returns whenever [mData] is not dangling. *)
Lemma create_returns (width height : Z) (colorSpace : ColorSpace.Type_)
    (this : Image.t) (h : store) :
  live this h ->
  let h0 := released_store this h in
  let rowSize := Image.calculateRowSize width (Image.calculateBpp colorSpace) in
  let size := to_unsigned (rowSize * height) in
  Image.create width height colorSpace None this h
  = Ret ({| Image.mColorSpace := colorSpace;
            Image.mBpp := Image.calculateBpp colorSpace;
            Image.mWidth := width;
            Image.mHeight := height;
            Image.mRowSize := rowSize;
            Image.mNumberOfChannels := calculateNumberOfChannels colorSpace;
            Image.mData := Some (Store.new_array size h0).1 |},
         (Store.new_array size h0).2).
Proof.
  intros Hl. cbv zeta. unfold Image.create.
  rewrite (destroy_returns this h Hl). cbn [obind].
  destruct (Store.new_array _ _) as [p h1]. reflexivity.
Qed.

End Ownership.

(** ** Row size of a created image *)

(** Over the integers the formula is the number of 32-bit words that hold
    the bits of a row, counted in bytes. *)
Lemma row_size_formula_words (width : Z) (colorSpace : ColorSpace.Type_) :
  row_size_formula width colorSpace
  = 4 * ((width * calculateNumberOfChannels colorSpace * 8 + 31) / 32).
Proof.
  unfold row_size_formula.
  set (x := width * calculateNumberOfChannels colorSpace * 8 + 31).
  change 31 with (Z.ones 5).
  rewrite <- Z.ldiff_land, Z.ldiff_ones_r by lia.
  rewrite Z.shiftl_mul_pow2, !Z.shiftr_div_pow2 by lia.
  change (2 ^ 5) with 32. change (2 ^ 3) with 8.
  replace (x / 32 * 32) with (4 * (x / 32) * 8) by lia.
  apply Z.div_mul. lia.
Qed.

(** The row size is not the formula for every width: for a row of 2^29 RGB
    pixels the number of bits, [2^29 * 24], is a multiple of 2^32, so that
    [create] computes rows of 0 bytes where the formula gives
    1610612736. *)
Lemma create_row_size_wraps :
  exists this h,
    Image.create (2 ^ 29) 1 RGB None Image.Image_default ∅ = Ret (this, h)
    /\ is_unsigned (2 ^ 29)
    /\ 0 < 2 ^ 29
    /\ Image.getRowSize this = 0
    /\ row_size_formula (2 ^ 29) RGB = 1610612736
    /\ Image.getRowSize this <> row_size_formula (2 ^ 29) RGB.
Proof.
  eexists _, _.
  split; [vm_compute; reflexivity|].
  split; [vm_compute; split; [discriminate | reflexivity]|].
  split; [reflexivity|].
  split; [reflexivity|].
  split; [vm_compute; reflexivity|].
  vm_compute. discriminate.
Qed.

(** C6, amended.  [create(width, height, colorSpace)] with a color space
    among GRAYSCALE, RGB and RGBA and positive dimensions returns.  When
    [width * channelCount * 8 + 31] is in the range of [unsigned int], the
    row size of the image is [((width * channelCount * 8 + 31) & ~31) >> 3]:
    the number of bytes of a row rounded up to the next multiple of four.
    [create(3, 1, RGB)] has rows of 12 bytes, 9 of data and 3 of padding. *)
Theorem create_row_size (width height : Z) (colorSpace : ColorSpace.Type_)
    (this : Image.t) (h : store) :
  colorSpace <> UNKNOWN ->
  is_unsigned width -> is_unsigned height -> 0 < width -> 0 < height ->
  width * calculateNumberOfChannels colorSpace * 8 + 31 < 2 ^ 32 ->
  live this h ->
  exists this' h',
    Image.create width height colorSpace None this h = Ret (this', h')
    /\ Image.getRowSize this' = row_size_formula width colorSpace
    /\ Image.getRowSize this'
       = 4 * ((width * calculateNumberOfChannels colorSpace * 8 + 31) / 32)
    /\ Image.getRowSize this' mod 4 = 0
    /\ width * calculateNumberOfChannels colorSpace <= Image.getRowSize this'
       < width * calculateNumberOfChannels colorSpace + 4
    /\ (width = 3 -> colorSpace = RGB ->
        Image.getRowSize this' = 12
        /\ Image.getRowSize this' - width * Image.getNumberOfChannels this' = 3).
Proof.
  intros Hcs Hw Hh Hw0 Hh0 Hfit Hl.
  eexists _, _. split; [apply create_returns; exact Hl|].
  cbn [Image.getRowSize Image.mRowSize Image.getNumberOfChannels
       Image.mNumberOfChannels].
  assert (Hb : 0 <= Image.calculateBpp colorSpace < 2 ^ 31)
    by (rewrite calculateBpp_channels;
        destruct colorSpace; cbn [calculateNumberOfChannels]; lia).
  assert (Hs : width * Image.calculateBpp colorSpace + 31 < 2 ^ 32)
    by (rewrite calculateBpp_channels; lia).
  pose proof (calculateRowSize_holds_row width _ ltac:(lia) Hb Hs) as Hrow.
  assert (Hexact : Image.calculateRowSize width (Image.calculateBpp colorSpace)
                   = 4 * ((width * calculateNumberOfChannels colorSpace * 8 + 31)
                          / 32)).
  { rewrite (calculateRowSize_exact width _ ltac:(lia) Hb Hs).
    rewrite calculateBpp_channels, Z.mul_assoc. reflexivity. }
  set (R := Image.calculateRowSize width (Image.calculateBpp colorSpace)) in *.
  rewrite calculateBpp_channels in Hrow.
  split; [rewrite row_size_formula_words; exact Hexact|].
  split; [exact Hexact|].
  split; [rewrite Hexact, Z.mul_comm; apply Z.mod_mul; lia|].
  split; [lia|].
  intros -> ->. split; reflexivity.
Qed.

Lemma create_row_size_witness :
  Image.create 3 1 RGB None Image.Image_default ∅
  = Ret ({| Image.mColorSpace := RGB; Image.mBpp := 24; Image.mWidth := 3;
            Image.mHeight := 1; Image.mRowSize := 12;
            Image.mNumberOfChannels := 3; Image.mData := Some 1%positive |},
         {[ 1%positive := replicate 12 Indeterminate ]})
  /\ 3 * calculateNumberOfChannels RGB * 8 + 31 < 2 ^ 32
  /\ exists this' h',
       Image.create 3 1 RGB None Image.Image_default ∅ = Ret (this', h')
       /\ Image.getRowSize this' = row_size_formula 3 RGB
       /\ Image.getRowSize this'
          = 4 * ((3 * calculateNumberOfChannels RGB * 8 + 31) / 32)
       /\ Image.getRowSize this' mod 4 = 0
       /\ 3 * calculateNumberOfChannels RGB <= Image.getRowSize this'
          < 3 * calculateNumberOfChannels RGB + 4
       /\ (3 = 3 -> RGB = RGB ->
           Image.getRowSize this' = 12
           /\ Image.getRowSize this' - 3 * Image.getNumberOfChannels this' = 3).
Proof.
  split; [vm_compute; reflexivity|].
  split; [vm_compute; reflexivity|].
  apply (create_row_size 3 1 RGB Image.Image_default ∅);
    unfold is_unsigned, live; simpl; (lia || discriminate || exact I).
Defined.

(** ** An image of unknown color space *)

Lemma calculateRowSize_no_bits (width : Z) : Image.calculateRowSize width 0 = 0.
Proof.
  unfold Image.calculateRowSize.
  change (to_unsigned 0) with 0. rewrite Z.mul_0_r. reflexivity.
Qed.

Lemma load_empty_block (p : block_id) (off : Z) (h : store) :
  h !! p = Some [] -> Store.load p off h = Undefined.
Proof.
  intros Hp. unfold Store.load. rewrite Hp.
  destruct (decide (0 <= off)); reflexivity.
Qed.

Lemma store_empty_block (p : block_id) (off : Z) (c : cell) (h : store) :
  h !! p = Some [] -> Store.store_cell p off c h = Undefined.
Proof.
  intros Hp. unfold Store.store_cell. rewrite Hp.
  destruct (decide _) as [Hin|]; [|reflexivity].
  simpl in Hin. lia.
Qed.

(** C10. [create(width, height, UNKNOWN)] returns for every width and
    height, in particular for positive ones.  The image reports that width
    and that height, but zero channels, zero bits per pixel and rows of zero
    bytes; its buffer is an array of length zero, so that reading or writing
    any channel value through the pixel accessor, at any coordinate, is out
    of bounds. *)
Theorem create_unknown_no_storage (width height : Z) (this : Image.t) (h : store) :
  live this h ->
  exists this' h' p,
    Image.create width height UNKNOWN None this h = Ret (this', h')
    /\ Image.getWidth this' = width
    /\ Image.getHeight this' = height
    /\ Image.getColorSpace this' = UNKNOWN
    /\ Image.getNumberOfChannels this' = 0
    /\ Image.mBpp this' = 0
    /\ Image.getRowSize this' = 0
    /\ Image.getData this' = Some p
    /\ h' !! p = Some []
    /\ Image.allocated this' h' = 0
    /\ (forall row column k,
          Store.load p (Image.pixel_offset this' row column + k) h' = Undefined)
    /\ (forall row column n,
          (0 < n)%nat -> Image.read_pixel this' row column n h' = Undefined)
    /\ (forall row column v values,
          Image.write_pixel this' row column (v :: values) h' = Undefined).
Proof.
  intros Hl.
  pose proof (create_returns width height UNKNOWN this h Hl) as Hc.
  cbv zeta in Hc.
  change (Image.calculateBpp UNKNOWN) with 0 in Hc.
  rewrite calculateRowSize_no_bits in Hc.
  rewrite Z.mul_0_l in Hc. change (to_unsigned 0) with 0 in Hc.
  pose proof (new_array_lookup 0 (released_store this h)) as Hp.
  change (replicate (Z.to_nat 0) Indeterminate) with (@nil cell) in Hp.
  eexists _, _, _. split; [exact Hc|].
  repeat (split; [reflexivity|]).
  split; [exact Hp|].
  split.
  { unfold Image.allocated, Store.allocated. cbn [Image.mData].
    rewrite Hp. reflexivity. }
  split.
  { intros row column k. apply load_empty_block. exact Hp. }
  split.
  - intros row column n Hn. unfold Image.read_pixel, Image.pixelAt.
    cbn [Image.mData]. destruct n as [|n]; [lia|].
    cbn [Store.load_n]. rewrite (load_empty_block _ _ _ Hp). reflexivity.
  - intros row column v values. unfold Image.write_pixel, Image.pixelAt.
    cbn [Image.mData]. cbn [fmap list_fmap Store.store_n].
    rewrite (store_empty_block _ _ _ _ Hp). reflexivity.
Qed.

Lemma create_unknown_no_storage_witness :
  live Image.Image_default ∅
  /\ exists this' h' p,
       Image.create 640 480 UNKNOWN None Image.Image_default ∅ = Ret (this', h')
       /\ Image.getWidth this' = 640
       /\ Image.getHeight this' = 480
       /\ Image.getColorSpace this' = UNKNOWN
       /\ Image.getNumberOfChannels this' = 0
       /\ Image.mBpp this' = 0
       /\ Image.getRowSize this' = 0
       /\ Image.getData this' = Some p
       /\ h' !! p = Some []
       /\ Image.allocated this' h' = 0
       /\ (forall row column k,
             Store.load p (Image.pixel_offset this' row column + k) h' = Undefined)
       /\ (forall row column n,
             (0 < n)%nat -> Image.read_pixel this' row column n h' = Undefined)
       /\ (forall row column v values,
             Image.write_pixel this' row column (v :: values) h' = Undefined).
Proof.
  split; [exact I|].
  apply (create_unknown_no_storage 640 480 Image.Image_default ∅). exact I.
Defined.

(** ** The empty state *)

(** The color space of a default-constructed image is not UNKNOWN, so the
    empty state is not (0 x 0, UNKNOWN, no buffer). *)
Lemma default_image_not_unknown :
  ~ (Image.getWidth Image.Image_default = 0
     /\ Image.getHeight Image.Image_default = 0
     /\ Image.getColorSpace Image.Image_default = UNKNOWN
     /\ Image.getData Image.Image_default = None).
Proof. intros (_ & _ & Hcs & _). discriminate Hcs. Qed.

(** C5, as the code behaves.  The default constructor and [destroy()] set
    the color space to RGB, not to UNKNOWN, next to 0 channels and 0 bits per
    pixel: fields that are not those of the color space they stand beside
    (RGB has 3 channels and 24 bits per pixel), and a state that neither
    [create] nor the four-argument constructor produces.  The rest is as
    described: width 0, height 0, rows of 0 bytes, no buffer; [destroy()] on
    an image whose buffer is not dangling returns, frees the buffer and
    leaves exactly the state of a default-constructed image; a second
    [destroy()] changes neither the image nor the store. *)
Theorem destroy_empty_state (this : Image.t) (h : store) :
  live this h ->
  exists empty h',
    Image.destroy this h = Ret (empty, h')
    /\ empty = Image.Image_default
    /\ Image.getColorSpace empty = RGB
    /\ Image.getColorSpace empty <> UNKNOWN
    /\ Image.getNumberOfChannels empty = 0
    /\ calculateNumberOfChannels (Image.getColorSpace empty) = 3
    /\ Image.mBpp empty = 0
    /\ Image.calculateBpp (Image.getColorSpace empty) = 24
    /\ Image.getWidth empty = 0
    /\ Image.getHeight empty = 0
    /\ Image.getRowSize empty = 0
    /\ Image.getData empty = None
    /\ (forall p, Image.getData this = Some p -> h' !! p = None)
    /\ (forall q, Image.getData this <> Some q -> h' !! q = h !! q)
    /\ Image.destroy empty h' = Ret (empty, h').
Proof.
  intros Hl.
  exists Image.Image_default, (released_store this h).
  split; [apply destroy_returns; exact Hl|].
  split; [reflexivity|]. split; [reflexivity|]. split; [discriminate|].
  do 8 (split; [reflexivity|]).
  unfold released_store, Image.getData.
  split; [|split].
  - intros p ->. apply lookup_delete_eq.
  - intros q Hq. destruct (Image.mData this) as [p|]; [|reflexivity].
    apply lookup_delete_ne. congruence.
  - reflexivity.
Qed.

Lemma destroy_empty_state_witness :
  exists a h,
    Image.create 3 1 RGB None Image.Image_default ∅ = Ret (a, h)
    /\ live a h
    /\ exists empty h',
         Image.destroy a h = Ret (empty, h')
         /\ Image.getColorSpace empty = RGB
         /\ Image.getNumberOfChannels empty = 0
         /\ Image.destroy empty h' = Ret (empty, h').
Proof.
  eexists _, _. split; [vm_compute; reflexivity|].
  assert (Hl : live
    {| Image.mColorSpace := RGB; Image.mBpp := 24; Image.mWidth := 3;
       Image.mHeight := 1; Image.mRowSize := 12; Image.mNumberOfChannels := 3;
       Image.mData := Some 1%positive |}
    (<[1%positive := replicate 12 Indeterminate]> ∅)).
  { unfold live. simpl. rewrite lookup_insert_eq. eexists. reflexivity. }
  split; [exact Hl|].
  destruct (destroy_empty_state _ _ Hl)
    as (empty & h' & Hd & _ & Hcs & _ & Hn & _ & _ & _ & _ & _ & _ & _ & _ & _ & Hagain).
  exists empty, h'. split; [exact Hd|]. split; [exact Hcs|].
  split; [exact Hn | exact Hagain].
Defined.

(** ** Assignment *)

Section Assignment.

Lemma memcpy_allocated (dst src q : option block_id) (n : Z) (h h' : store) :
  Store.memcpy dst src n h = Ret h' ->
  Store.allocated q h' = Store.allocated q h.
Proof.
  unfold Store.memcpy.
  destruct (n =? 0); [intros [= <-]; reflexivity|].
  destruct dst as [d|]; [|discriminate].
  destruct src as [s|]; [|discriminate].
  destruct (h !! d) as [dcells|] eqn:Hd; [|discriminate].
  destruct (h !! s) as [scells|]; [|discriminate].
  destruct (decide _) as [(Hds & Hnd & Hns)|]; [|discriminate].
  intros [= <-]. unfold Store.allocated.
  destruct q as [q|]; [|reflexivity].
  destruct (decide (d = q)) as [<-|Hq].
  - rewrite lookup_insert_eq, Hd.
    rewrite length_app, length_take, length_drop. lia.
  - rewrite lookup_insert_ne by exact Hq. reflexivity.
Qed.

(** Whenever [operator=] returns, the destination has the fields of the
    source, the pointer it had before and an array of the length it had
    before: the comparison [sourceSize != destSize] reads the fields after
    they were overwritten, so that the array is never replaced. *)
Lemma assign_returns (this image : Image.t) (h : store) (this' : Image.t) (h' : store) :
  Image.assign this image h = Ret (this', h') ->
  this' = Image.with_data image (Image.mData this)
  /\ Image.allocated this' h' = Image.allocated this h.
Proof.
  unfold Image.assign. cbn [Image.mRowSize Image.mHeight].
  destruct (decide _) as [Hne|_]; [exfalso; apply Hne; reflexivity|].
  cbn [obind Image.mData].
  destruct (Store.memcpy _ _ _ h) as [h2| |] eqn:Hm; [|discriminate..].
  intros [= <- <-]. split; [reflexivity|].
  unfold Image.allocated. cbn [Image.mData].
  exact (memcpy_allocated _ _ _ _ _ _ Hm).
Qed.

End Assignment.

(** C2, as the code behaves.  [a] is a 2 x 2 RGB image, [b] a 1 x 1
    GRAYSCALE image, both made by [create], each with a buffer of exactly
    [rowSize * height] elements (16 and 4).  After [a = b] the image [a] has
    rows of 4 bytes and height 1, and still its buffer of 16 elements. *)
Theorem assign_breaks_buffer_length :
  exists a b h a' h',
    rgb_2x2_and_gray_1x1 = Ret (a, b, h)
    /\ Image.allocated a h = Image.getRowSize a * Image.getHeight a
    /\ Image.allocated b h = Image.getRowSize b * Image.getHeight b
    /\ Image.assign a b h = Ret (a', h')
    /\ Image.getRowSize a' * Image.getHeight a' = 4
    /\ Image.allocated a' h' = 16.
Proof.
  eexists _, _, _, _, _.
  split; [vm_compute; reflexivity|].
  split; [vm_compute; reflexivity|].
  split; [vm_compute; reflexivity|].
  split; [vm_compute; reflexivity|].
  split; vm_compute; reflexivity.
Qed.

(** C4, as the code behaves.  With [a] and [b] as above, the allocated size
    of [a] (16) differs from [rowSize * height] of [b] (4), yet [a = b]
    keeps the array of [a]; [b = a] copies 16 bytes into the array of 4
    elements of [b], and assigning [b] to a default-constructed image copies
    into [nullptr]: both are undefined. *)
Theorem assign_never_reallocates :
  exists a b h a' h',
    rgb_2x2_and_gray_1x1 = Ret (a, b, h)
    /\ Image.allocated a h <> to_unsigned (Image.getRowSize b * Image.getHeight b)
    /\ Image.assign a b h = Ret (a', h')
    /\ Image.getData a' = Image.getData a
    /\ Image.allocated a' h' = Image.allocated a h
    /\ Image.assign b a h = Undefined
    /\ Image.assign Image.Image_default b h = Undefined.
Proof.
  eexists _, _, _, _, _.
  split; [vm_compute; reflexivity|].
  split; [vm_compute; discriminate|].
  split; [vm_compute; reflexivity|].
  split; [vm_compute; reflexivity|].
  split; [vm_compute; reflexivity|].
  split; vm_compute; reflexivity.
Qed.

(** ** The pixel accessor *)

Section Pixels.

(** Writing [cs] at [off] replaces exactly the cells [off .. off + |cs| - 1]
    of the array. *)
Lemma store_n_returns (cs : list cell) :
  forall (p : block_id) (off : Z) (h : store) (cells : list cell),
    h !! p = Some cells ->
    0 <= off ->
    off + Z.of_nat (length cs) <= Z.of_nat (length cells) ->
    exists cells',
      Store.store_n p off cs h = Ret (<[p := cells']> h)
      /\ length cells' = length cells
      /\ (forall i : nat,
            (Z.to_nat off <= i < Z.to_nat off + length cs)%nat ->
            cells' !! i = cs !! (i - Z.to_nat off)%nat)
      /\ (forall i : nat,
            ~ (Z.to_nat off <= i < Z.to_nat off + length cs)%nat ->
            cells' !! i = cells !! i).
Proof.
  induction cs as [|c cs IH]; intros p off h cells Hp Hoff Hlen.
  - exists cells. cbn [Store.store_n]. rewrite insert_id by exact Hp.
    split; [reflexivity|]. split; [reflexivity|].
    split; [intros i Hi; simpl in Hi; lia | reflexivity].
  - cbn [length] in Hlen. cbn [Store.store_n]. unfold Store.store_cell.
    rewrite Hp. destruct (decide _) as [_|Hbad]; [|lia].
    cbn [obind].
    set (cells1 := <[Z.to_nat off := c]> cells).
    assert (Hlen1 : length cells1 = length cells) by apply length_insert.
    destruct (IH p (off + 1) (<[p := cells1]> h) cells1) as (cells' & Hs & Hl & Hin & Hout).
    { apply lookup_insert_eq. }
    { lia. }
    { rewrite Hlen1. lia. }
    exists cells'. rewrite insert_insert_eq in Hs.
    split; [exact Hs|]. split; [congruence|].
    replace (Z.to_nat (off + 1)) with (S (Z.to_nat off)) in * by lia.
    split.
    + intros i Hi. cbn [length] in Hi.
      destruct (decide (i = Z.to_nat off)) as [->|Hne].
      * rewrite Hout by lia. rewrite Nat.sub_diag. cbn.
        apply list_lookup_insert_eq. lia.
      * rewrite Hin by lia.
        replace (i - Z.to_nat off)%nat with (S (i - S (Z.to_nat off))) by lia.
        reflexivity.
    + intros i Hi. cbn [length] in Hi.
      rewrite Hout by lia. apply list_lookup_insert_ne. lia.
Qed.

(** Reading [n] cells at [off] yields the cells [off .. off + n - 1]. *)
Lemma load_n_returns (n : nat) :
  forall (p : block_id) (off : Z) (h : store) (cells l : list cell),
    h !! p = Some cells ->
    0 <= off ->
    length l = n ->
    (forall i : nat, (i < n)%nat -> cells !! (Z.to_nat off + i)%nat = l !! i) ->
    Store.load_n p off n h = Ret l.
Proof.
  induction n as [|n IH]; intros p off h cells l Hp Hoff Hl Hcells.
  - destruct l; [reflexivity | discriminate].
  - destruct l as [|c l]; [discriminate|].
    cbn [Store.load_n]. unfold Store.load. rewrite Hp.
    destruct (decide _) as [_|Hbad]; [|lia].
    pose proof (Hcells 0%nat ltac:(lia)) as H0.
    rewrite Nat.add_0_r in H0. rewrite H0. cbn [lookup list_lookup obind].
    rewrite (IH p (off + 1) h cells l Hp ltac:(lia)).
    + reflexivity.
    + cbn [length] in Hl. lia.
    + intros i Hi.
      replace (Z.to_nat (off + 1) + i)%nat with (Z.to_nat off + S i)%nat by lia.
      rewrite Hcells by lia. reflexivity.
Qed.

Lemma load_n_in_bounds (n : nat) (p : block_id) (off : Z) (h : store)
    (cells : list cell) :
  h !! p = Some cells ->
  0 <= off ->
  off + Z.of_nat n <= Z.of_nat (length cells) ->
  Store.load_n p off n h = Ret (take n (drop (Z.to_nat off) cells)).
Proof.
  intros Hp Hoff Hlen.
  apply (load_n_returns n p off h cells); [exact Hp | exact Hoff | |].
  - rewrite length_take, length_drop. lia.
  - intros i Hi. rewrite lookup_take_lt by exact Hi.
    rewrite lookup_drop. reflexivity.
Qed.

(** In the layout [rows_in_buffer] the offset of a pixel is computed without
    wrap-around and its channel values lie inside its row. *)
Lemma pixel_offset_exact (this : Image.t) (row column : Z) :
  0 <= Image.mNumberOfChannels this ->
  Image.mWidth this * Image.mNumberOfChannels this <= Image.mRowSize this ->
  Image.mRowSize this * Image.mHeight this < 2 ^ 32 ->
  0 <= row < Image.mHeight this ->
  0 <= column < Image.mWidth this ->
  Image.pixel_offset this row column
  = row * Image.mRowSize this + column * Image.mNumberOfChannels this
  /\ 0 <= row * Image.mRowSize this + column * Image.mNumberOfChannels this
  /\ row * Image.mRowSize this + column * Image.mNumberOfChannels this
     + Image.mNumberOfChannels this
     <= Image.mRowSize this * Image.mHeight this.
Proof.
  intros Hn Hrow Hsize Hr Hc.
  set (R := Image.mRowSize this) in *. set (n := Image.mNumberOfChannels this) in *.
  set (W := Image.mWidth this) in *. set (H := Image.mHeight this) in *.
  assert (Hcn : 0 <= column * n /\ column * n + n <= W * n) by nia.
  assert (HR : 0 <= R) by nia.
  assert (Hrr : 0 <= row * R /\ row * R + R <= R * H) by nia.
  unfold Image.pixel_offset. fold R. fold n.
  rewrite (to_unsigned_small n) by lia.
  rewrite (to_unsigned_small (row * R)) by lia.
  rewrite (to_unsigned_small (column * n)) by lia.
  rewrite to_unsigned_small by lia.
  lia.
Qed.

(** The channel values of two different pixels do not overlap. *)
Lemma pixels_disjoint (R n W row column row' column' : Z) :
  0 < n -> W * n <= R ->
  0 <= row -> 0 <= column < W -> 0 <= row' -> 0 <= column' < W ->
  (row', column') <> (row, column) ->
  row' * R + column' * n + n <= row * R + column * n
  \/ row * R + column * n + n <= row' * R + column' * n.
Proof.
  intros Hn HW Hr Hc Hr' Hc' Hne.
  assert (Hc1 : 0 <= column * n /\ column * n + n <= W * n) by nia.
  assert (Hc2 : 0 <= column' * n /\ column' * n + n <= W * n) by nia.
  assert (HR : 0 < R) by nia.
  destruct (Z.lt_trichotomy row' row) as [Hlt|[Heq|Hgt]].
  - left. assert (row' * R + R <= row * R) by nia. lia.
  - subst row'.
    destruct (Z.lt_trichotomy column' column) as [Hlt|[Heq|Hgt]].
    + left. assert (column' * n + n <= column * n) by nia. lia.
    + subst column'. contradiction Hne. reflexivity.
    + right. assert (column * n + n <= column' * n) by nia. lia.
  - right. assert (row * R + R <= row' * R) by nia. lia.
Qed.

End Pixels.

(** [create] establishes the layout when neither the number of bits of a row
    nor the number of bytes of the image leaves the range of
    [unsigned int]. *)
Lemma create_rows_in_buffer (width height : Z) (colorSpace : ColorSpace.Type_)
    (this : Image.t) (h : store) :
  live this h ->
  0 <= width -> 0 <= height ->
  width * calculateNumberOfChannels colorSpace * 8 + 31 < 2 ^ 32 ->
  Image.calculateRowSize width (Image.calculateBpp colorSpace) * height < 2 ^ 32 ->
  exists this' h',
    Image.create width height colorSpace None this h = Ret (this', h')
    /\ Image.getWidth this' = width
    /\ Image.getHeight this' = height
    /\ Image.getColorSpace this' = colorSpace
    /\ rows_in_buffer this' h'.
Proof.
  intros Hl Hw Hh Hbits Hsize.
  eexists _, _. split; [apply create_returns; exact Hl|].
  repeat (split; [reflexivity|]).
  assert (Hb : 0 <= Image.calculateBpp colorSpace < 2 ^ 31)
    by (rewrite calculateBpp_channels;
        destruct colorSpace; cbn [calculateNumberOfChannels]; lia).
  assert (Hs : width * Image.calculateBpp colorSpace + 31 < 2 ^ 32)
    by (rewrite calculateBpp_channels; lia).
  pose proof (calculateRowSize_holds_row width _ Hw Hb Hs) as Hrow.
  pose proof (calculateRowSize_range width (Image.calculateBpp colorSpace)) as HR.
  set (R := Image.calculateRowSize width (Image.calculateBpp colorSpace)) in *.
  assert (HRh : 0 <= R * height) by nia.
  eexists _, _. cbn [Image.mData Image.mNumberOfChannels Image.mColorSpace
                     Image.mWidth Image.mRowSize Image.mHeight].
  split; [reflexivity|].
  split; [apply new_array_lookup|].
  split; [reflexivity|].
  rewrite length_replicate, (to_unsigned_small (R * height)) by lia.
  rewrite calculateBpp_channels in Hrow.
  split; [lia|]. split; [lia | exact Hsize].
Qed.

(** The round trip fails for some images that [create] makes: for a row
    of 2^29 RGB pixels the number of bits of a row wraps around to 0, the
    rows have 0 bytes and the buffer 0 elements, and writing the pixel at
    the valid coordinate (0, 0) is out of bounds. *)
Lemma pixel_write_out_of_bounds :
  exists this h,
    Image.create (2 ^ 29) 1 RGB None Image.Image_default ∅ = Ret (this, h)
    /\ Image.getColorSpace this = RGB
    /\ 0 <= 0 < Image.getHeight this
    /\ 0 <= 0 < Image.getWidth this
    /\ Image.getRowSize this = 0
    /\ Image.allocated this h = 0
    /\ Image.write_pixel this 0 0 [x01; x02; x03] h = Undefined
    /\ Image.read_pixel this 0 0 3 h = Undefined.
Proof.
  eexists _, _.
  split; [vm_compute; reflexivity|].
  split; [reflexivity|].
  split; [vm_compute; split; [discriminate | reflexivity]|].
  split; [vm_compute; split; [discriminate | reflexivity]|].
  split; [reflexivity|].
  split; [vm_compute; reflexivity|].
  split; vm_compute; reflexivity.
Qed.

(** C7, amended.  For an image in the layout [rows_in_buffer] (the one
    [create] establishes as long as its size arithmetic does not wrap
    around) with a color space among GRAYSCALE, RGB and RGBA, and a valid
    coordinate pair: the accessor addresses offset
    [row * rowSize + column * channelCount]; writing [channelCount] values
    there returns and keeps the layout; reading them back yields exactly the
    values written; and what is read at any other valid coordinate is what
    was read there before. *)
Theorem pixel_round_trip (this : Image.t) (h : store) (row column : Z)
    (values : list byte) :
  rows_in_buffer this h ->
  Image.getColorSpace this <> UNKNOWN ->
  0 <= row < Image.getHeight this ->
  0 <= column < Image.getWidth this ->
  Z.of_nat (length values) = Image.getNumberOfChannels this ->
  exists p h',
    Image.pixelAt this row column
    = Some (p, row * Image.getRowSize this + column * Image.getNumberOfChannels this)
    /\ Image.write_pixel this row column values h = Ret h'
    /\ Image.read_pixel this row column (length values) h' = Ret (Val <$> values)
    /\ rows_in_buffer this h'
    /\ forall row' column',
         0 <= row' < Image.getHeight this ->
         0 <= column' < Image.getWidth this ->
         (row', column') <> (row, column) ->
         Image.read_pixel this row' column' (length values) h'
         = Image.read_pixel this row' column' (length values) h
         /\ exists old, Image.read_pixel this row' column' (length values) h = Ret old.
Proof.
  unfold Image.getColorSpace, Image.getHeight, Image.getWidth,
    Image.getNumberOfChannels, Image.getRowSize.
  intros (p & cells & Hd & Hp & Hch & HW & Hlen & Hsize) Hcs Hr Hc Hvals.
  assert (Hn : 0 < Image.mNumberOfChannels this).
  { rewrite Hch. destruct (Image.mColorSpace this); cbn; try lia.
    contradiction Hcs. reflexivity. }
  destruct (pixel_offset_exact this row column ltac:(lia) HW Hsize Hr Hc)
    as (Hoff & Hoff0 & Hoff1).
  set (off := row * Image.mRowSize this + column * Image.mNumberOfChannels this) in *.
  destruct (store_n_returns (Val <$> values) p off h cells Hp Hoff0)
    as (cells' & Hs & Hl' & Hin & Hout).
  { rewrite length_fmap. lia. }
  rewrite length_fmap in Hin, Hout.
  assert (Hp' : <[p := cells']> h !! p = Some cells') by apply lookup_insert_eq.
  exists p, (<[p := cells']> h).
  split; [unfold Image.pixelAt; rewrite Hd, Hoff; reflexivity|].
  split; [unfold Image.write_pixel, Image.pixelAt; rewrite Hd, Hoff; exact Hs|].
  split.
  { unfold Image.read_pixel, Image.pixelAt. rewrite Hd, Hoff.
    apply (load_n_returns _ p off _ cells'); [exact Hp' | exact Hoff0 | |].
    - apply length_fmap.
    - intros i Hi. rewrite Hin by lia. f_equal. lia. }
  split.
  { exists p, cells'. rewrite Hl'. repeat split; assumption. }
  intros row' column' Hr' Hc' Hne.
  destruct (pixel_offset_exact this row' column' ltac:(lia) HW Hsize Hr' Hc')
    as (Hoff' & Hoff0' & Hoff1').
  set (off' := row' * Image.mRowSize this + column' * Image.mNumberOfChannels this) in *.
  pose proof (pixels_disjoint (Image.mRowSize this) (Image.mNumberOfChannels this)
                (Image.mWidth this) row column row' column'
                Hn HW ltac:(lia) Hc ltac:(lia) Hc' Hne) as Hdis.
  fold off off' in Hdis.
  unfold Image.read_pixel, Image.pixelAt. rewrite Hd, Hoff'.
  rewrite (load_n_in_bounds _ p off' h cells Hp Hoff0') by lia.
  split; [|eexists; reflexivity].
  apply (load_n_returns _ p off' _ cells'); [exact Hp' | exact Hoff0' | |].
  - rewrite length_take, length_drop. lia.
  - intros i Hi. rewrite Hout by lia.
    rewrite lookup_take_lt by exact Hi. rewrite lookup_drop. reflexivity.
Qed.

Lemma pixel_round_trip_witness :
  rows_in_buffer rgb_3x1 rgb_3x1_store
  /\ exists h',
       Image.write_pixel rgb_3x1 0 1 [x0a; x0b; x0c] rgb_3x1_store = Ret h'
       /\ Image.read_pixel rgb_3x1 0 1 3 h' = Ret [Val x0a; Val x0b; Val x0c]
       /\ Image.read_pixel rgb_3x1 0 2 3 h'
          = Image.read_pixel rgb_3x1 0 2 3 rgb_3x1_store.
Proof.
  assert (Hrows : rows_in_buffer rgb_3x1 rgb_3x1_store).
  { exists 1%positive, (replicate 12 Indeterminate).
    repeat split; vm_compute; (reflexivity || discriminate). }
  split; [exact Hrows|].
  destruct (pixel_round_trip rgb_3x1 rgb_3x1_store 0 1 [x0a; x0b; x0c] Hrows)
    as (p & h' & _ & Hw & Hr & _ & Hother).
  - discriminate.
  - vm_compute. split; [discriminate | reflexivity].
  - vm_compute. split; [discriminate | reflexivity].
  - reflexivity.
  - exists h'. split; [exact Hw|]. split; [exact Hr|].
    apply (Hother 0 2).
    + vm_compute. split; [discriminate | reflexivity].
    + vm_compute. split; [discriminate | reflexivity].
    + discriminate.
Defined.

(** ** The bindings to the codec *)

Import Env Jpeg.

Section Resources.

Context `{L : LibJpeg}.

Lemma open_files_app (evs evs' : list event) :
  open_files (evs ++ evs') = open_files evs + open_files evs'.
Proof.
  unfold open_files. induction evs as [|e evs IH]; cbn [foldr app]; lia.
Qed.

Lemma live_codecs_app (evs evs' : list event) :
  live_codecs (evs ++ evs') = live_codecs evs + live_codecs evs'.
Proof.
  unfold live_codecs. induction evs as [|e evs IH]; cbn [foldr app]; lia.
Qed.

Lemma open_files_calls (calls : list jpeg_call) : open_files (Ejpeg <$> calls) = 0.
Proof. induction calls as [|c calls IH]; [reflexivity|]. cbn. exact IH. Qed.

Lemma live_codecs_replicate (n : nat) (c : jpeg_call) :
  codec_delta (Ejpeg c) = 0 -> live_codecs (replicate n (Ejpeg c)) = 0.
Proof.
  intros Hc. induction n as [|n IH]; [reflexivity|].
  cbn [replicate]. unfold live_codecs in *. cbn [foldr]. lia.
Qed.

Lemma open_files_replicate (n : nat) (c : jpeg_call) :
  open_files (replicate n (Ejpeg c)) = 0.
Proof.
  induction n as [|n IH]; [reflexivity|].
  cbn [replicate]. unfold open_files in *. cbn [foldr file_delta]. lia.
Qed.

(** The loops leave only calls of [jpeg_read_scanlines] and of
    [jpeg_write_scanlines] behind. *)
Lemma read_rows_events (passes : nat) :
  forall cInfo image row w cInfo' w',
    ImageFile.read_rows passes cInfo image row w = Ret (cInfo', w') ->
    events w' = events w ++ replicate passes (Ejpeg jpeg_read_scanlines)
    /\ files w' = files w /\ denied w' = denied w.
Proof.
  induction passes as [|passes IH]; intros cInfo image row w cInfo' w' Hrun.
  - injection Hrun as <- <-. rewrite app_nil_r. auto.
  - cbn [ImageFile.read_rows] in Hrun.
    destruct (Image.pixelAt image row 0) as [[p off]|]; [|discriminate].
    destruct (read_scanline cInfo) as [line|]; [|discriminate].
    cbn [fatal obind] in Hrun.
    destruct (Store.store_n p off (Val <$> line) (heap w)) as [h'| |];
      [|discriminate..].
    cbn [obind] in Hrun.
    apply IH in Hrun as (Hev & Hf & Hd).
    cbn [log with_heap events files denied] in Hev, Hf, Hd.
    rewrite Hev, <- app_assoc. auto.
Qed.

Lemma write_rows_events (passes : nat) :
  forall cinfo path image row w cinfo' w',
    ImageFile.write_rows passes cinfo path image row w = Ret (cinfo', w') ->
    events w' = events w ++ replicate passes (Ejpeg jpeg_write_scanlines)
    /\ heap w' = heap w /\ denied w' = denied w.
Proof.
  induction passes as [|passes IH]; intros cinfo path image row w cinfo' w' Hrun.
  - injection Hrun as <- <-. rewrite app_nil_r. auto.
  - cbn [ImageFile.write_rows] in Hrun.
    destruct (Image.pixelAt image (to_unsigned row) 0) as [[p off]|]; [|discriminate].
    destruct (Store.load_n p off _ (heap w)) as [line| |]; [|discriminate..].
    cbn [obind] in Hrun.
    destruct (write_scanline cinfo line) as [bytes|]; [|discriminate].
    cbn [fatal obind] in Hrun.
    apply IH in Hrun as (Hev & Hh & Hd).
    cbn [log fwrite with_files events heap denied] in Hev, Hh, Hd.
    rewrite Hev, <- app_assoc. auto.
Qed.

Lemma fopen_events (path : string) (m : mode) (w w1 : world) :
  fopen path m w = Some w1 ->
  events w1 = events w ++ [Efopen path m] /\ heap w1 = heap w /\ denied w1 = denied w.
Proof.
  unfold fopen. destruct (decide _); [discriminate|].
  destruct m.
  - destruct (files w !! path); [|discriminate]. intros [= <-]. auto.
  - intros [= <-]. auto.
Qed.

(** Every return of [loadJPEG] leaves no file open and no codec context
    alive. *)
Lemma loadJPEG_released (path : string) (image image' : Image.t) (w w' : world)
    (b : bool) :
  ImageFile.loadJPEG path image w = Ret (b, image', w') -> released w w'.
Proof.
  unfold ImageFile.loadJPEG, released.
  destruct (fopen path RB w) as [w1|] eqn:Hopen; [|intros [= <- <- <-]; auto].
  apply fopen_events in Hopen as (Hev1 & _ & _).
  destruct (read_header _) as [cInfo0|]; [|discriminate]. cbn [fatal obind].
  destruct (start_decompress cInfo0) as [cInfo|]; [|discriminate].
  cbn [fatal obind].
  set (colorSpace := match out_color_space cInfo with
                     | JCS_GRAYSCALE => Some GRAYSCALE
                     | JCS_RGB | JCS_EXT_RGB => Some RGB
                     | JCS_EXT_RGBA => Some RGBA
                     | _ => None
                     end).
  destruct colorSpace as [colorSpace|].
  - destruct (Image.create _ _ _ _ _ _) as [[image1 h1]| |]; [|discriminate..].
    cbn [obind].
    destruct (ImageFile.read_rows _ _ _ _ _) as [[cInfo' w7]| |] eqn:Hrows;
      [|discriminate..].
    cbn [obind].
    destruct (finish_decompress cInfo'); [|discriminate].
    intros [= <- <- <-].
    apply read_rows_events in Hrows as (Hev7 & _ & _).
    cbn [fclose log with_heap events] in *. rewrite Hev7, Hev1.
    rewrite !open_files_app, !live_codecs_app, open_files_replicate.
    rewrite live_codecs_replicate by reflexivity.
    cbn. lia.
  - destruct (finish_decompress cInfo); [|discriminate].
    intros [= <- <- <-].
    cbn [fclose log events]. rewrite Hev1.
    rewrite !open_files_app, !live_codecs_app. cbn. lia.
Qed.

(** So does every return of [saveJPEG] for an image whose color space the
    codec supports. *)
Lemma saveJPEG_released (path : string) (image : Image.t) (quality : Z)
    (w w' : world) (b : bool) :
  Image.getColorSpace image <> UNKNOWN ->
  ImageFile.saveJPEG path image quality w = Ret (b, w') -> released w w'.
Proof.
  intros Hcs. unfold ImageFile.saveJPEG, released.
  destruct (fopen path WB w) as [w1|] eqn:Hopen; [|intros [= <- <-]; auto].
  apply fopen_events in Hopen as (Hev1 & _ & _).
  destruct (Image.getColorSpace image); [contradiction Hcs; reflexivity| | |].
  all: destruct (set_defaults _) as [cinfo|]; [|discriminate]; cbn [fatal obind].
  all: destruct (start_compress _) as [header|]; [|discriminate]; cbn [fatal obind].
  all: destruct (ImageFile.write_rows _ _ _ _ _ _) as [[cinfo' w7]| |] eqn:Hrows;
    [|discriminate..]; cbn [obind].
  all: destruct (finish_compress cinfo') as [trailer|]; [|discriminate];
    cbn [fatal obind].
  all: intros [= <- <-].
  all: apply write_rows_events in Hrows as (Hev7 & _ & _).
  all: cbn [fclose log fwrite with_files events] in *; rewrite Hev7, Hev1.
  all: rewrite !open_files_app, !live_codecs_app, open_files_replicate.
  all: rewrite live_codecs_replicate by reflexivity.
  all: cbn; lia.
Qed.

End Resources.

Section Dispatch.

Context `{L : LibJpeg}.

Lemma empty_iff (path : string) : ImageFile.empty path = true <-> path = EmptyString.
Proof. destruct path; simpl; split; (reflexivity || discriminate). Qed.

(** What [saveJPEG] does with an image of unknown color space. *)
Lemma saveJPEG_unknown (path : string) (image : Image.t) (quality : Z) (w : world) :
  Image.getColorSpace image = UNKNOWN ->
  ImageFile.saveJPEG path image quality w
  = match fopen path WB w with
    | None => Ret (false, w)
    | Some w1 =>
        Ret (false, log (Ejpeg jpeg_stdio_dest) (log (Ejpeg jpeg_create_compress) w1))
    end.
Proof.
  intros Hcs. unfold ImageFile.saveJPEG. rewrite Hcs. reflexivity.
Qed.

(** Every call of [jpeg_set_quality] that [saveJPEG] makes passes on the
    quality it was given. *)
Lemma saveJPEG_quality (path : string) (image : Image.t) (quality : Z)
    (w w' : world) (b : bool) :
  ImageFile.saveJPEG path image quality w = Ret (b, w') ->
  exists evs,
    events w' = events w ++ evs
    /\ forall q, Ejpeg (jpeg_set_quality q) ∈ evs -> q = quality.
Proof.
  unfold ImageFile.saveJPEG.
  destruct (fopen path WB w) as [w1|] eqn:Hopen.
  2:{ intros [= <- <-]. exists []. rewrite app_nil_r. split; [reflexivity|].
      intros q Hq. inversion Hq. }
  apply fopen_events in Hopen as (Hev1 & _ & _).
  destruct (Image.getColorSpace image).
  { intros [= <- <-]. eexists. cbn [log events]. rewrite Hev1, <- !app_assoc.
    split; [reflexivity|]. intros q Hq.
    rewrite !elem_of_app, !list_elem_of_singleton in Hq.
    destruct Hq as [Hq|[Hq|Hq]]; discriminate Hq. }
  all: destruct (set_defaults _) as [cinfo|]; [|discriminate]; cbn [fatal obind].
  all: destruct (start_compress _) as [header|]; [|discriminate]; cbn [fatal obind].
  all: destruct (ImageFile.write_rows _ _ _ _ _ _) as [[cinfo' w7]| |] eqn:Hrows;
    [|discriminate..]; cbn [obind].
  all: destruct (finish_compress cinfo') as [trailer|]; [|discriminate];
    cbn [fatal obind].
  all: intros [= <- <-].
  all: apply write_rows_events in Hrows as (Hev7 & _ & _).
  all: cbn [fclose log fwrite with_files events] in *; rewrite Hev7, Hev1.
  all: eexists; rewrite <- !app_assoc; split; [reflexivity|].
  all: intros q Hq; rewrite !elem_of_app, !list_elem_of_singleton in Hq.
  all: rewrite elem_of_replicate in Hq.
  all: destruct Hq as [Hq|[Hq|[Hq|[Hq|[Hq|[Hq|[[Hq _]|[Hq|[Hq|Hq]]]]]]]]];
    try discriminate Hq.
  all: injection Hq as ->; reflexivity.
Qed.

End Dispatch.

(** C1, as the code behaves.  When [saveJPEG] is given an image of unknown
    color space and a path that can be opened, it opens the file, creates
    the compression context and returns [false] from the [default] branch of
    its [switch] with the file still open and the context still alive. *)
Theorem saveJPEG_unknown_leaks `{L : LibJpeg} (path : string) (image : Image.t)
    (quality : Z) (w : world) :
  Image.getColorSpace image = UNKNOWN ->
  path ∉ denied w ->
  exists w',
    ImageFile.saveJPEG path image quality w = Ret (false, w')
    /\ events w'
       = events w ++ [Efopen path WB; Ejpeg jpeg_create_compress; Ejpeg jpeg_stdio_dest]
    /\ open_files (events w') = open_files (events w) + 1
    /\ live_codecs (events w') = live_codecs (events w) + 1
    /\ ~ released w w'.
Proof.
  intros Hcs Hpath.
  rewrite (saveJPEG_unknown path image quality w Hcs).
  unfold fopen. destruct (decide (path ∈ denied w)) as [Hin|_]; [contradiction|].
  eexists. split; [reflexivity|].
  cbn [log with_files events]. rewrite <- !app_assoc. cbn [app].
  split; [reflexivity|].
  rewrite open_files_app, live_codecs_app.
  split; [reflexivity|]. split; [reflexivity|].
  unfold released. cbn [log with_files events].
  rewrite <- !app_assoc, open_files_app. cbn. lia.
Qed.

Lemma saveJPEG_unknown_leaks_witness :
  Image.create 1 1 UNKNOWN None Image.Image_default ∅
  = Ret (unknown_1x1, unknown_1x1_store)
  /\ exists w',
       @ImageFile.saveJPEG abort_codec "out.jpg" unknown_1x1 100
         (world_with_file "in.jpg" [] unknown_1x1_store) = Ret (false, w')
       /\ open_files (events w') = 1
       /\ live_codecs (events w') = 1.
Proof.
  split; [vm_compute; reflexivity|].
  destruct (@saveJPEG_unknown_leaks abort_codec "out.jpg" unknown_1x1 100
              (world_with_file "in.jpg" [] unknown_1x1_store))
    as (w' & Hrun & _ & Hfiles & Hcodecs & _).
  - reflexivity.
  - vm_compute. intros Hin. inversion Hin.
  - exists w'. split; [exact Hrun|]. split; [exact Hfiles | exact Hcodecs].
Defined.

(** ** Saving an image of unknown color space *)

(** [save] of an image of unknown color space does touch the file system:
    an existing file at the path is truncated to length zero, and a file
    that did not exist is created. *)
Lemma save_unknown_truncates :
  exists w1 w2,
    @ImageFile.save abort_codec "out.jpg" unknown_1x1
      (world_with_file "out.jpg" [x01; x02] unknown_1x1_store) = Ret (false, w1)
    /\ files (world_with_file "out.jpg" [x01; x02] unknown_1x1_store) !! "out.jpg"
       = Some [x01; x02]
    /\ files w1 !! "out.jpg" = Some []
    /\ @ImageFile.save abort_codec "new.jpg" unknown_1x1
         (world_with_file "out.jpg" [x01; x02] unknown_1x1_store) = Ret (false, w2)
    /\ files (world_with_file "out.jpg" [x01; x02] unknown_1x1_store) !! "new.jpg"
       = None
    /\ files w2 !! "new.jpg" = Some [].
Proof.
  eexists _, _.
  split; [vm_compute; reflexivity|].
  split; [vm_compute; reflexivity|].
  split; [vm_compute; reflexivity|].
  split; [vm_compute; reflexivity|].
  split; vm_compute; reflexivity.
Qed.

(** C3, amended.  [save] of an image of unknown color space returns [false]
    for every path.  It leaves the store alone and makes none of the calls
    with which the codec encodes and writes an image, so that no image data
    reaches the file.  For an empty path and for a path that cannot be
    opened nothing changes at all; for any other path the file at that path,
    and no other file, is created or truncated to length zero by the [fopen]
    that precedes the test of the color space. *)
Theorem save_unknown `{L : LibJpeg} (path : string) (image : Image.t) (w : world) :
  Image.getColorSpace image = UNKNOWN ->
  exists w',
    ImageFile.save path image w = Ret (false, w')
    /\ heap w' = heap w
    /\ (path = EmptyString \/ path ∈ denied w -> w' = w)
    /\ (path <> EmptyString -> path ∉ denied w ->
        files w' = <[path := []]> (files w))
    /\ (forall other, other <> path -> files w' !! other = files w !! other)
    /\ (forall c, c ∈ codec_calls (drop (length (events w)) (events w')) ->
        c <> jpeg_start_compress
        /\ c <> jpeg_write_scanlines
        /\ c <> jpeg_finish_compress).
Proof.
  intros Hcs. unfold ImageFile.save, ImageFile.checkFileExtension.
  destruct (ImageFile.empty path) eqn:Hempty.
  - apply empty_iff in Hempty. exists w.
    split; [reflexivity|]. split; [reflexivity|]. split; [reflexivity|].
    split; [intros Hne; contradiction|]. split; [reflexivity|].
    intros c Hc. rewrite drop_all in Hc. inversion Hc.
  - assert (Hne : path <> EmptyString).
    { intros ->. discriminate Hempty. }
    rewrite (saveJPEG_unknown path image 100 w Hcs). unfold fopen.
    destruct (decide (path ∈ denied w)) as [Hden|Hden].
    + exists w.
      split; [reflexivity|]. split; [reflexivity|]. split; [reflexivity|].
      split; [intros _ Hnd; contradiction|]. split; [reflexivity|].
      intros c Hc. rewrite drop_all in Hc. inversion Hc.
    + eexists. split; [reflexivity|].
      cbn [log with_files heap files events].
      split; [reflexivity|].
      split; [intros [Heq|Hin]; contradiction|].
      split; [intros _ _; reflexivity|].
      split; [intros other Ho; apply lookup_insert_ne; congruence|].
      intros c Hc. rewrite <- !app_assoc in Hc.
      rewrite drop_app_length in Hc. cbn in Hc.
      rewrite !elem_of_cons in Hc.
      destruct Hc as [->|[->|Hc]]; [repeat split; discriminate.. | inversion Hc].
Qed.

Lemma save_unknown_witness :
  Image.getColorSpace unknown_1x1 = UNKNOWN
  /\ exists w',
       @ImageFile.save abort_codec "out.jpg" unknown_1x1
         (world_with_file "out.jpg" [x01; x02] unknown_1x1_store) = Ret (false, w')
       /\ heap w' = unknown_1x1_store.
Proof.
  split; [reflexivity|].
  destruct (@save_unknown abort_codec "out.jpg" unknown_1x1
              (world_with_file "out.jpg" [x01; x02] unknown_1x1_store) eq_refl)
    as (w' & Hrun & Hheap & _).
  exists w'. split; [exact Hrun | exact Hheap].
Defined.

(** ** Loading from a path that cannot be opened *)

(** C8.  When the file at the path cannot be opened for reading, because no
    such file exists or because access to it is denied, [load] returns
    [false] and leaves the image, the store with the contents of its buffer
    and everything else as they were. *)
Theorem load_unopenable `{L : LibJpeg} (path : string) (image : Image.t) (w : world) :
  fopen path RB w = None ->
  ImageFile.load path image w = Ret (false, image, w).
Proof.
  intros Hopen. unfold ImageFile.load.
  destruct (ImageFile.checkFileExtension path); [reflexivity|].
  unfold ImageFile.loadJPEG. rewrite Hopen. reflexivity.
Qed.

Lemma load_unopenable_witness :
  fopen "missing.jpg" RB (world_with_file "in.jpg" [x01] rgb_3x1_store) = None
  /\ @ImageFile.load raw_codec "missing.jpg" rgb_3x1
       (world_with_file "in.jpg" [x01] rgb_3x1_store)
     = Ret (false, rgb_3x1, world_with_file "in.jpg" [x01] rgb_3x1_store).
Proof.
  split; [vm_compute; reflexivity|].
  apply (@load_unopenable raw_codec). vm_compute. reflexivity.
Defined.

(** ** Classification of the path *)

(** C9.  An empty path is classified as of unknown format, and [load] and
    [save] return [false] without any effect, in particular without a call
    into the codec.  Every other path, whatever its suffix, is classified as
    JPEG; [load] is then [loadJPEG] and [save] is [saveJPEG] with quality
    100, and 100 is the quality of every call of [jpeg_set_quality] that
    [save] makes. *)
Theorem dispatch_on_path `{L : LibJpeg} (path : string) (image : Image.t) (w : world) :
  (path = EmptyString ->
   ImageFile.checkFileExtension path = ImageFile.Format.UNKNOWN
   /\ ImageFile.load path image w = Ret (false, image, w)
   /\ ImageFile.save path image w = Ret (false, w))
  /\ (path <> EmptyString ->
      ImageFile.checkFileExtension path = ImageFile.Format.JPEG
      /\ ImageFile.load path image w = ImageFile.loadJPEG path image w
      /\ ImageFile.save path image w = ImageFile.saveJPEG path image 100 w
      /\ forall b w' q,
           ImageFile.save path image w = Ret (b, w') ->
           Ejpeg (jpeg_set_quality q) ∈ drop (length (events w)) (events w') ->
           q = 100).
Proof.
  split.
  - intros ->. repeat split.
  - intros Hne.
    assert (Hjpeg : ImageFile.checkFileExtension path = ImageFile.Format.JPEG).
    { unfold ImageFile.checkFileExtension.
      destruct (ImageFile.empty path) eqn:Hempty; [|reflexivity].
      apply empty_iff in Hempty. contradiction. }
    unfold ImageFile.load, ImageFile.save. rewrite Hjpeg.
    repeat (split; [reflexivity|]).
    intros b w' q Hrun Hq.
    apply saveJPEG_quality in Hrun as (evs & Hev & Hquality).
    rewrite Hev, drop_app_length in Hq. apply Hquality. exact Hq.
Qed.

Lemma dispatch_on_path_witness :
  (ImageFile.checkFileExtension EmptyString = ImageFile.Format.UNKNOWN
   /\ @ImageFile.load raw_codec EmptyString rgb_3x1
        (world_with_file "in.jpg" [x01] rgb_3x1_store)
      = Ret (false, rgb_3x1, world_with_file "in.jpg" [x01] rgb_3x1_store)
   /\ @ImageFile.save raw_codec EmptyString rgb_3x1
        (world_with_file "in.jpg" [x01] rgb_3x1_store)
      = Ret (false, world_with_file "in.jpg" [x01] rgb_3x1_store))
  /\ (ImageFile.checkFileExtension "picture.png" = ImageFile.Format.JPEG
      /\ @ImageFile.save raw_codec "picture.png" rgb_3x1
           (world_with_file "in.jpg" [x01] rgb_3x1_store)
         = @ImageFile.saveJPEG raw_codec "picture.png" rgb_3x1 100
             (world_with_file "in.jpg" [x01] rgb_3x1_store)).
Proof.
  split.
  - exact (proj1 (@dispatch_on_path raw_codec EmptyString rgb_3x1
                    (world_with_file "in.jpg" [x01] rgb_3x1_store)) eq_refl).
  - destruct (proj2 (@dispatch_on_path raw_codec "picture.png" rgb_3x1
                       (world_with_file "in.jpg" [x01] rgb_3x1_store)))
      as (Hformat & _ & Hsave & _).
    + discriminate.
    + split; [exact Hformat | exact Hsave].
Defined.

(** ** The bindings at work *)

(** With [raw_codec], loading a 2 x 1 RGB file into a default-constructed
    image succeeds, fills the image row by row and releases the file and
    the decompression context. *)
Example load_raw_rgb :
  exists image' w',
    @ImageFile.load raw_codec "in.jpg" Image.Image_default
      (world_with_file "in.jpg" [x03; x02; x01; x0a; x0b; x0c; x10; x11; x12] ∅)
    = Ret (true, image', w')
    /\ Image.getWidth image' = 2
    /\ Image.getHeight image' = 1
    /\ Image.getColorSpace image' = RGB
    /\ Image.getRowSize image' = 8
    /\ Image.read_pixel image' 0 0 3 (heap w') = Ret [Val x0a; Val x0b; Val x0c]
    /\ Image.read_pixel image' 0 1 3 (heap w') = Ret [Val x10; Val x11; Val x12]
    /\ open_files (events w') = 0
    /\ live_codecs (events w') = 0.
Proof.
  eexists _, _. split; [vm_compute; reflexivity|].
  repeat split; vm_compute; reflexivity.
Qed.

(** Saving that image writes it back, with quality 100, and releases the
    file and the compression context. *)
Example save_raw_rgb :
  exists image' w' w'',
    @ImageFile.load raw_codec "in.jpg" Image.Image_default
      (world_with_file "in.jpg" [x03; x02; x01; x0a; x0b; x0c; x10; x11; x12] ∅)
    = Ret (true, image', w')
    /\ @ImageFile.save raw_codec "lena_copy.jpg" image' w' = Ret (true, w'')
    /\ files w'' !! "lena_copy.jpg"
       = Some [x03; x02; x01; x0a; x0b; x0c; x10; x11; x12]
    /\ Ejpeg (jpeg_set_quality 100) ∈ events w''
    /\ open_files (events w'') = 0
    /\ live_codecs (events w'') = 0.
Proof.
  eexists _, _, _. split; [vm_compute; reflexivity|].
  split; [vm_compute; reflexivity|].
  split; [vm_compute; reflexivity|].
  split; [|split; vm_compute; reflexivity].
  apply list_elem_of_In. vm_compute. tauto.
Qed.

(** * Further properties of the code *)

(** ** Creating an image *)

Section Create.

Lemma to_size_t_small (x : Z) : 0 <= x < 2 ^ 64 -> to_size_t x = x.
Proof. intros Hx. unfold to_size_t. apply Z.mod_small. exact Hx. Qed.

(** The number of bytes [create] and the constructor copy from [data]. *)
Lemma copy_size (rowSize height : Z) :
  0 <= rowSize < 2 ^ 32 -> 0 <= height < 2 ^ 32 ->
  to_size_t (to_size_t (Image.sizeof_BYTE * rowSize) * height) = rowSize * height.
Proof.
  intros HR HH. unfold Image.sizeof_BYTE. rewrite Z.mul_1_l.
  assert (0 <= rowSize * height) by nia.
  assert (rowSize * height < 2 ^ 32 * 2 ^ 32) by nia.
  change (2 ^ 32 * 2 ^ 32) with (2 ^ 64) in *.
  rewrite (to_size_t_small rowSize) by lia.
  apply to_size_t_small. lia.
Qed.

Lemma memcpy_returns (d s : block_id) (n : Z) (h : store) (dcells scells : list cell) :
  d <> s -> h !! d = Some dcells -> h !! s = Some scells ->
  0 <= n -> n <= Z.of_nat (length dcells) -> n <= Z.of_nat (length scells) ->
  Store.memcpy (Some d) (Some s) n h
  = Ret (<[d := take (Z.to_nat n) scells ++ drop (Z.to_nat n) dcells]> h).
Proof.
  intros Hds Hd Hs Hn Hnd Hns. unfold Store.memcpy.
  destruct (n =? 0) eqn:Hz.
  - apply Z.eqb_eq in Hz. subst n. cbn [Z.to_nat take drop app].
    rewrite insert_id by exact Hd. reflexivity.
  - rewrite Hd, Hs. destruct (decide _) as [_|Hbad]; [reflexivity|].
    contradiction Hbad. auto.
Qed.

Lemma create_live (width height : Z) (colorSpace : ColorSpace.Type_)
    (data : option block_id) (this this' : Image.t) (h h' : store) :
  Image.create width height colorSpace data this h = Ret (this', h') ->
  live this h.
Proof.
  unfold Image.create, Image.destroy, Store.delete_array, live.
  destruct (Image.mData this) as [p|]; [|intros _; exact I].
  destruct (h !! p) as [cells|]; [intros _; eexists; reflexivity | discriminate].
Qed.

End Create.

(** X1.  [create] without source data, on an image whose buffer is not
    dangling, returns an image in the state [as_created] whatever the state
    before: the fields are those of the arguments, and the buffer is a new
    array of [rowSize * height] elements (the product in [unsigned int]), all
    of indeterminate value.  Every array that was live and belonged to
    someone else is other than the new array and keeps its contents, and
    the array the image had before is live no more, unless the new array
    took its place. *)
Theorem create_fresh_buffer (width height : Z) (colorSpace : ColorSpace.Type_)
    (this : Image.t) (h : store) :
  live this h ->
  exists this' h' p,
    Image.create width height colorSpace None this h = Ret (this', h')
    /\ Image.getWidth this' = width
    /\ Image.getHeight this' = height
    /\ Image.getColorSpace this' = colorSpace
    /\ as_created this' h'
    /\ Image.getData this' = Some p
    /\ h' !! p
       = Some (replicate
                 (Z.to_nat (to_unsigned (Image.getRowSize this' * height)))
                 Indeterminate)
    /\ (forall q cells,
          Image.getData this <> Some q -> h !! q = Some cells ->
          p <> q /\ h' !! q = Some cells)
    /\ (forall r, Image.getData this = Some r -> r <> p -> h' !! r = None).
Proof.
  intros Hl.
  pose proof (create_returns width height colorSpace this h Hl) as Hc.
  cbv zeta in Hc.
  set (R := Image.calculateRowSize width (Image.calculateBpp colorSpace)) in *.
  set (n := to_unsigned (R * height)) in *.
  set (h0 := released_store this h) in *.
  pose proof (new_array_fresh n h0) as Hfresh.
  pose proof (new_array_lookup n h0) as Hnew.
  eexists _, _, _. split; [exact Hc|].
  cbn [Image.getWidth Image.getHeight Image.getColorSpace Image.getData
       Image.getRowSize Image.mWidth Image.mHeight Image.mColorSpace
       Image.mData Image.mRowSize].
  repeat (split; [reflexivity|]).
  split.
  { unfold as_created.
    cbn [Image.mBpp Image.mColorSpace Image.mRowSize Image.mWidth
         Image.mNumberOfChannels Image.mData Image.mHeight].
    repeat (split; [reflexivity|]).
    eexists _, _. split; [reflexivity|]. split; [exact Hnew|].
    rewrite length_replicate. fold R n.
    pose proof (to_unsigned_range (R * height)) as Hrange. fold n in Hrange. lia. }
  split; [reflexivity|]. split; [exact Hnew|].
  unfold Image.getData.
  split.
  - intros q cells Hq Hcells.
    assert (Hq0 : h0 !! q = Some cells).
    { unfold h0, released_store.
      destruct (Image.mData this) as [r|]; [|exact Hcells].
      rewrite lookup_delete_ne by congruence. exact Hcells. }
    assert (Hpq : (Store.new_array n h0).1 <> q) by congruence.
    split; [exact Hpq|].
    unfold Store.new_array in *. cbn [fst snd] in *.
    rewrite lookup_insert_ne by exact Hpq. exact Hq0.
  - intros r Hr Hrp. unfold Store.new_array in *. cbn [fst snd] in *.
    rewrite lookup_insert_ne by congruence.
    unfold h0, released_store. rewrite Hr. apply lookup_delete_eq.
Qed.

Lemma create_fresh_buffer_witness :
  live Image.Image_default ∅
  /\ (exists this' h' p,
        Image.create 1 1 GRAYSCALE None Image.Image_default ∅ = Ret (this', h')
        /\ as_created this' h'
        /\ Image.getData this' = Some p)
  /\ live rgb_3x1 rgb_3x1_store
  /\ exists this' h' p,
       Image.create 1 1 GRAYSCALE None rgb_3x1
         (<[7%positive := [Val x01]]> rgb_3x1_store) = Ret (this', h')
       /\ Image.getData this' = Some p
       /\ p <> 7%positive
       /\ h' !! 7%positive = Some [Val x01].
Proof.
  split; [exact I|].
  split.
  { destruct (create_fresh_buffer 1 1 GRAYSCALE Image.Image_default ∅ I)
      as (this' & h' & p & Hc & _ & _ & _ & Hstate & Hd & _).
    exists this', h', p. auto. }
  assert (Hl : forall g, g !! 1%positive = Some (replicate 12 Indeterminate) ->
                         live rgb_3x1 g).
  { intros g Hg. change (is_Some (g !! 1%positive)). rewrite Hg.
    eexists. reflexivity. }
  split; [apply Hl; vm_compute; reflexivity|].
  destruct (create_fresh_buffer 1 1 GRAYSCALE rgb_3x1
              (<[7%positive := [Val x01]]> rgb_3x1_store))
    as (this' & h' & p & Hc & _ & _ & _ & _ & Hd & _ & Hframe & _).
  { apply Hl. vm_compute. reflexivity. }
  destruct (Hframe 7%positive [Val x01]) as (Hp & Hq).
  { discriminate. }
  { apply lookup_insert_eq. }
  exists this', h', p. auto.
Defined.

(** X2.  [create] with source data that is none of the image's own buffer
    and holds at least [rowSize * height] elements, that product being in
    the range of [unsigned int]: the new buffer is exactly the first
    [rowSize * height] elements of the data, and the data is left as it
    was. *)
Theorem create_copies_data (width height : Z) (colorSpace : ColorSpace.Type_)
    (this : Image.t) (h : store) (d : block_id) (dcells : list cell) :
  let rowSize := Image.calculateRowSize width (Image.calculateBpp colorSpace) in
  live this h ->
  Image.mData this <> Some d ->
  h !! d = Some dcells ->
  0 <= height < 2 ^ 32 ->
  rowSize * height < 2 ^ 32 ->
  rowSize * height <= Z.of_nat (length dcells) ->
  exists this' h' p,
    Image.create width height colorSpace (Some d) this h = Ret (this', h')
    /\ Image.getData this' = Some p
    /\ p <> d
    /\ h' !! p = Some (take (Z.to_nat (rowSize * height)) dcells)
    /\ h' !! d = Some dcells
    /\ as_created this' h'.
Proof.
  intros R Hl Hd Hcells Hh Hsize Hlen.
  pose proof (calculateRowSize_range width (Image.calculateBpp colorSpace)) as HR.
  fold R in HR.
  assert (Hn : 0 <= R * height) by nia.
  unfold Image.create. rewrite (destroy_returns this h Hl). cbn [obind].
  fold R. rewrite (to_unsigned_small (R * height)) by lia.
  rewrite copy_size by lia.
  set (h0 := released_store this h).
  pose proof (new_array_fresh (R * height) h0) as Hfresh.
  assert (Hd0 : h0 !! d = Some dcells).
  { unfold h0, released_store. destruct (Image.mData this) as [r|]; [|exact Hcells].
    rewrite lookup_delete_ne by congruence. exact Hcells. }
  unfold Store.new_array in *. cbn [fst] in Hfresh.
  set (p := fresh (dom h0)) in *.
  assert (Hpd : p <> d) by congruence.
  rewrite (memcpy_returns p d (R * height) _
             (replicate (Z.to_nat (R * height)) Indeterminate) dcells).
  - cbn [obind]. eexists _, _, p. split; [reflexivity|].
    split; [reflexivity|]. split; [exact Hpd|].
    assert (Hdrop : drop (Z.to_nat (R * height))
                      (replicate (Z.to_nat (R * height)) Indeterminate) = []).
    { apply drop_ge. rewrite length_replicate. lia. }
    rewrite Hdrop, app_nil_r, insert_insert_eq.
    split; [apply lookup_insert_eq|].
    split; [rewrite lookup_insert_ne by exact Hpd; exact Hd0|].
    unfold as_created.
    cbn [Image.mBpp Image.mColorSpace Image.mRowSize Image.mWidth
         Image.mNumberOfChannels Image.mData Image.mHeight].
    repeat (split; [reflexivity|]).
    eexists _, _. split; [reflexivity|]. split; [apply lookup_insert_eq|].
    fold R. rewrite length_take, (to_unsigned_small (R * height)) by lia. lia.
  - exact Hpd.
  - apply lookup_insert_eq.
  - rewrite lookup_insert_ne by exact Hpd. exact Hd0.
  - exact Hn.
  - rewrite length_replicate. lia.
  - exact Hlen.
Qed.

Lemma create_copies_data_witness :
  exists this' h' p,
    Image.create 1 1 GRAYSCALE (Some 1%positive) Image.Image_default
      {[ 1%positive := [Val x07; Val x08; Val x09; Val x0a; Val x0b] ]}
    = Ret (this', h')
    /\ Image.getData this' = Some p
    /\ h' !! p = Some [Val x07; Val x08; Val x09; Val x0a].
Proof.
  destruct (create_copies_data 1 1 GRAYSCALE Image.Image_default
              {[ 1%positive := [Val x07; Val x08; Val x09; Val x0a; Val x0b] ]}
              1%positive [Val x07; Val x08; Val x09; Val x0a; Val x0b])
    as (this' & h' & p & Hc & Hd & _ & Hp & _).
  - exact I.
  - discriminate.
  - vm_compute. reflexivity.
  - lia.
  - vm_compute. reflexivity.
  - vm_compute. discriminate.
  - exists this', h', p. split; [exact Hc|]. split; [exact Hd | exact Hp].
Defined.

(** X3.  [create] frees the buffer of the image before it reads the source
    data.  Handing an image its own buffer as source data,
    [image.create(w, h, cs, image.getData())], is therefore undefined as soon
    as there is a byte to copy. *)
Theorem create_from_own_buffer (width height : Z) (colorSpace : ColorSpace.Type_)
    (this : Image.t) (h : store) (p : block_id) :
  let rowSize := Image.calculateRowSize width (Image.calculateBpp colorSpace) in
  Image.getData this = Some p ->
  0 < height < 2 ^ 32 ->
  0 < rowSize ->
  Image.create width height colorSpace (Some p) this h = Undefined.
Proof.
  intros R Hp Hh HR0. unfold Image.getData in Hp.
  pose proof (calculateRowSize_range width (Image.calculateBpp colorSpace)) as HR.
  fold R in HR.
  unfold Image.create, Image.destroy, Store.delete_array. rewrite Hp.
  destruct (h !! p) as [cells|]; [|reflexivity].
  cbn [obind]. fold R. rewrite copy_size by lia.
  unfold Store.new_array.
  set (h0 := delete p h). set (p' := fresh (dom h0)).
  unfold Store.memcpy.
  assert (Hn : (R * height =? 0) = false) by (apply Z.eqb_neq; nia).
  rewrite Hn, lookup_insert_eq.
  destruct (decide (p' = p)) as [->|Hne].
  - rewrite lookup_insert_eq.
    destruct (decide _) as [(Hbad & _)|_]; [contradiction Hbad|]; reflexivity.
  - rewrite lookup_insert_ne by exact Hne.
    unfold h0. rewrite lookup_delete_eq. reflexivity.
Qed.

Lemma create_from_own_buffer_witness :
  Image.getData rgb_3x1 = Some 1%positive
  /\ Image.create 3 1 RGB (Some 1%positive) rgb_3x1 rgb_3x1_store = Undefined.
Proof.
  split; [reflexivity|].
  apply (create_from_own_buffer 3 1 RGB rgb_3x1 rgb_3x1_store 1%positive).
  - reflexivity.
  - lia.
  - vm_compute. reflexivity.
Defined.

(** X4.  The buffer is allocated with [rowSize * height] computed in
    [unsigned int], the source data is copied with the same product computed
    in [size_t].  When the product does not fit [unsigned int], [create]
    with source data copies more bytes than it allocated: it is undefined
    for every image, store and data pointer. *)
Theorem create_data_overflow (width height : Z) (colorSpace : ColorSpace.Type_)
    (this : Image.t) (h : store) (d : block_id) :
  let rowSize := Image.calculateRowSize width (Image.calculateBpp colorSpace) in
  0 <= height < 2 ^ 32 ->
  2 ^ 32 <= rowSize * height ->
  Image.create width height colorSpace (Some d) this h = Undefined.
Proof.
  intros R Hh Hbig.
  pose proof (calculateRowSize_range width (Image.calculateBpp colorSpace)) as HR.
  fold R in HR.
  pose proof (to_unsigned_range (R * height)) as Hu.
  assert (Hdel : Store.delete_array (Image.mData this) h = Undefined
                 \/ exists h0, Store.delete_array (Image.mData this) h = Ret h0).
  { unfold Store.delete_array. destruct (Image.mData this) as [q|]; [|eauto].
    destruct (h !! q); eauto. }
  unfold Image.create, Image.destroy.
  destruct Hdel as [->|[h0 ->]]; [reflexivity|].
  cbn [obind]. fold R. rewrite copy_size by lia.
  unfold Store.new_array. set (p := fresh (dom h0)).
  unfold Store.memcpy.
  assert (Hn : (R * height =? 0) = false) by (apply Z.eqb_neq; lia).
  rewrite Hn, lookup_insert_eq.
  destruct (_ !! d) as [dcells|]; [|reflexivity].
  destruct (decide _) as [(_ & Hbad & _)|_]; [|reflexivity].
  rewrite length_replicate in Hbad. lia.
Qed.

Lemma create_data_overflow_witness :
  Image.calculateRowSize 65536 (Image.calculateBpp GRAYSCALE) * 65536 = 2 ^ 32
  /\ Image.create 65536 65536 GRAYSCALE (Some 1%positive) Image.Image_default
       {[ 1%positive := [Val x07] ]}
     = Undefined.
Proof.
  split; [vm_compute; reflexivity|].
  apply (create_data_overflow 65536 65536 GRAYSCALE).
  - lia.
  - vm_compute. discriminate.
Defined.

(** ** Copies *)

(** X5.  The copy constructor, applied to an image in the state
    [as_created] whose [rowSize * height] is in the range of
    [unsigned int], makes an image with the same fields and a buffer of its
    own: a new array, other than the one of the source, with the contents of
    the source's.  No array that was live is changed, so that either image
    can be destroyed without touching the other. *)
Theorem copy_constructor_independent (image : Image.t) (h : store) :
  as_created image h ->
  0 <= Image.getHeight image < 2 ^ 32 ->
  Image.getRowSize image * Image.getHeight image < 2 ^ 32 ->
  exists copy h' p q cells,
    Image.Image_copy image h = Ret (copy, h')
    /\ Image.getData image = Some q
    /\ Image.getData copy = Some p
    /\ p <> q
    /\ copy = Image.with_data image (Some p)
    /\ h !! q = Some cells
    /\ h' !! p = Some cells
    /\ (forall r, r <> p -> h' !! r = h !! r)
    /\ as_created copy h'.
Proof.
  unfold Image.getHeight, Image.getRowSize, Image.getData.
  intros (Hbpp & Hrow & Hch & q & cells & Hq & Hcells & Hlen) Hh Hsize.
  pose proof (calculateRowSize_range (Image.mWidth image) (Image.mBpp image)) as HR.
  rewrite <- Hrow in HR.
  assert (Hn : 0 <= Image.mRowSize image * Image.mHeight image) by nia.
  rewrite to_unsigned_small in Hlen by lia.
  unfold Image.Image_copy, Image.Image_new, Image.getWidth, Image.getHeight,
    Image.getColorSpace, Image.getData.
  rewrite <- Hbpp, <- Hrow, <- Hch, Hq.
  rewrite (to_unsigned_small (Image.mRowSize image * Image.mHeight image)) by lia.
  rewrite copy_size by lia.
  set (n := Image.mRowSize image * Image.mHeight image) in *.
  unfold Store.new_array. set (p := fresh (dom h)).
  assert (Hfresh : h !! p = None) by (apply not_elem_of_dom, is_fresh).
  assert (Hpq : p <> q) by congruence.
  rewrite (memcpy_returns p q n _ (replicate (Z.to_nat n) Indeterminate) cells);
    [| exact Hpq | apply lookup_insert_eq
     | rewrite lookup_insert_ne by exact Hpq; exact Hcells
     | exact Hn | rewrite length_replicate; lia | lia ].
  cbn [obind].
  assert (Hcopy : take (Z.to_nat n) cells
                  ++ drop (Z.to_nat n) (replicate (Z.to_nat n) Indeterminate)
                  = cells).
  { rewrite take_ge by lia. rewrite drop_ge by (rewrite length_replicate; lia).
    apply app_nil_r. }
  rewrite Hcopy, insert_insert_eq.
  eexists _, _, p, q, cells. split; [reflexivity|].
  split; [reflexivity|]. split; [reflexivity|]. split; [exact Hpq|].
  split; [destruct image; reflexivity|].
  split; [exact Hcells|]. split; [apply lookup_insert_eq|].
  split; [intros r Hr; apply lookup_insert_ne; congruence|].
  unfold as_created.
  cbn [Image.mBpp Image.mColorSpace Image.mRowSize Image.mWidth
       Image.mNumberOfChannels Image.mData Image.mHeight].
  repeat (split; [assumption|]).
  exists p, cells. split; [reflexivity|]. split; [apply lookup_insert_eq|].
  fold n. rewrite (to_unsigned_small n) by lia. exact Hlen.
Qed.

Lemma copy_constructor_independent_witness :
  as_created rgb_3x1 rgb_3x1_store
  /\ exists copy h' p,
       Image.Image_copy rgb_3x1 rgb_3x1_store = Ret (copy, h')
       /\ Image.getData copy = Some p
       /\ p <> 1%positive
       /\ h' !! p = Some (replicate 12 Indeterminate).
Proof.
  assert (Hstate : as_created rgb_3x1 rgb_3x1_store).
  { repeat split. exists 1%positive, (replicate 12 Indeterminate).
    repeat split. }
  split; [exact Hstate|].
  destruct (copy_constructor_independent rgb_3x1 rgb_3x1_store Hstate)
    as (copy & h' & p & q & cells & Hc & Hq & Hp & Hpq & _ & Hcells & Hcopy & _).
  - vm_compute. split; [discriminate | reflexivity].
  - vm_compute. reflexivity.
  - exists copy, h', p. split; [exact Hc|]. split; [exact Hp|].
    injection Hq as <-. split; [exact Hpq|].
    rewrite Hcopy, <- Hcells. vm_compute. reflexivity.
Defined.

(** X6.  The copy of an image in the empty state is not in the empty state.
    After [destroy()] an image has the color space RGB with 0 channels and 0
    bits per pixel and no buffer; its copy has 3 channels, 24 bits per pixel
    and a buffer, an array of length zero. *)
Theorem copy_of_destroyed_image (this : Image.t) (h : store) :
  live this h ->
  exists empty h1 copy h2 p,
    Image.destroy this h = Ret (empty, h1)
    /\ Image.getNumberOfChannels empty = 0
    /\ Image.mBpp empty = 0
    /\ Image.getData empty = None
    /\ Image.Image_copy empty h1 = Ret (copy, h2)
    /\ Image.getWidth copy = 0
    /\ Image.getHeight copy = 0
    /\ Image.getColorSpace copy = Image.getColorSpace empty
    /\ Image.getNumberOfChannels copy = 3
    /\ Image.mBpp copy = 24
    /\ Image.getData copy = Some p
    /\ h2 !! p = Some [].
Proof.
  intros Hl.
  exists Image.Image_default, (released_store this h).
  assert (Hcopy :
    Image.Image_copy Image.Image_default (released_store this h)
    = Ret ({| Image.mColorSpace := RGB; Image.mBpp := 24; Image.mWidth := 0;
              Image.mHeight := 0; Image.mRowSize := 0;
              Image.mNumberOfChannels := 3;
              Image.mData := Some (fresh (dom (released_store this h))) |},
           <[fresh (dom (released_store this h)) := []]> (released_store this h)))
    by reflexivity.
  eexists _, _, _.
  split; [apply destroy_returns; exact Hl|].
  split; [reflexivity|]. split; [reflexivity|]. split; [reflexivity|].
  split; [exact Hcopy|].
  cbn [Image.getWidth Image.getHeight Image.getColorSpace
       Image.getNumberOfChannels Image.getData Image.mWidth Image.mHeight
       Image.mColorSpace Image.mNumberOfChannels Image.mBpp Image.mData].
  split; [reflexivity|]. split; [reflexivity|]. split; [reflexivity|].
  split; [reflexivity|]. split; [reflexivity|]. split; [reflexivity|].
  apply lookup_insert_eq.
Qed.

Lemma copy_of_destroyed_image_witness :
  live rgb_3x1 rgb_3x1_store
  /\ exists copy h2,
       Image.Image_copy Image.Image_default ∅ = Ret (copy, h2)
       /\ Image.getNumberOfChannels copy = 3
       /\ Image.mBpp copy = 24.
Proof.
  assert (Hl : live rgb_3x1 rgb_3x1_store).
  { unfold live. simpl. eexists. vm_compute. reflexivity. }
  split; [exact Hl|].
  destruct (copy_of_destroyed_image rgb_3x1 rgb_3x1_store Hl)
    as (empty & h1 & copy & h2 & p & Hd & _ & _ & _ & Hc & _ & _ & _ & Hn & Hb & _).
  vm_compute in Hd. injection Hd as <- <-.
  exists copy, h2. split; [exact Hc|]. split; [exact Hn | exact Hb].
Defined.

(** X7.  Assignment to an image that already has a buffer of its own with
    room for [rowSize * height] elements of the source copies the source:
    the destination gets the fields of the source and keeps its own array,
    no other array changes, and every pixel of the destination then reads as
    the same pixel of the source does. *)
Theorem assign_deep_copy (this image : Image.t) (h : store) (d : block_id)
    (dcells : list cell) :
  rows_in_buffer image h ->
  0 <= Image.getRowSize image -> 0 <= Image.getHeight image ->
  Image.getData this = Some d ->
  Image.getData image <> Some d ->
  h !! d = Some dcells ->
  Image.getRowSize image * Image.getHeight image <= Z.of_nat (length dcells) ->
  exists h',
    Image.assign this image h = Ret (Image.with_data image (Some d), h')
    /\ rows_in_buffer (Image.with_data image (Some d)) h'
    /\ (forall r, r <> d -> h' !! r = h !! r)
    /\ forall row column (k : nat),
         0 <= row < Image.getHeight image ->
         0 <= column < Image.getWidth image ->
         Z.of_nat k <= Image.getNumberOfChannels image ->
         Image.read_pixel (Image.with_data image (Some d)) row column k h'
         = Image.read_pixel image row column k h
         /\ exists values, Image.read_pixel image row column k h = Ret values.
Proof.
  unfold Image.getRowSize, Image.getHeight, Image.getData, Image.getWidth,
    Image.getNumberOfChannels.
  intros (s & scells & Hs & Hscells & Hch & HW & Hlen & Hsize) HR HH Hd Hsd Hdcells Hroom.
  set (n := Image.mRowSize image * Image.mHeight image) in *.
  assert (Hn : 0 <= n) by (unfold n; nia).
  assert (Hds : d <> s) by congruence.
  unfold Image.assign. cbn [Image.mRowSize Image.mHeight].
  destruct (decide _) as [Hne|_]; [exfalso; apply Hne; reflexivity|].
  cbn [obind Image.mData]. fold n. rewrite (to_unsigned_small n) by lia.
  rewrite Hd, Hs.
  rewrite (memcpy_returns d s n h dcells scells Hds Hdcells Hscells Hn Hroom Hlen).
  cbn [obind].
  set (cells' := take (Z.to_nat n) scells ++ drop (Z.to_nat n) dcells).
  assert (Hcells' : <[d := cells']> h !! d = Some cells') by apply lookup_insert_eq.
  assert (Hlen' : length cells' = length dcells).
  { unfold cells'. rewrite length_app, length_take, length_drop. lia. }
  eexists. split; [destruct image; reflexivity|].
  split.
  { exists d, cells'. cbn [Image.with_data Image.mData Image.mNumberOfChannels
                           Image.mColorSpace Image.mWidth Image.mRowSize
                           Image.mHeight].
    rewrite Hlen'. repeat split; assumption. }
  split; [intros r Hr; apply lookup_insert_ne; congruence|].
  intros row column k Hrow Hcol Hk.
  assert (Hn0 : 0 <= Image.mNumberOfChannels image).
  { rewrite Hch. destruct (Image.mColorSpace image); cbn; lia. }
  destruct (pixel_offset_exact image row column Hn0 HW Hsize Hrow Hcol)
    as (Hoff & Hoff0 & Hoff1).
  set (off := row * Image.mRowSize image
              + column * Image.mNumberOfChannels image) in *.
  fold n in Hoff1.
  unfold Image.read_pixel, Image.pixelAt.
  cbn [Image.with_data Image.mData]. rewrite Hs.
  change (Image.pixel_offset (Image.with_data image (Some d)) row column)
    with (Image.pixel_offset image row column).
  rewrite Hoff.
  rewrite (load_n_in_bounds k s off h scells Hscells Hoff0) by lia.
  split; [|eexists; reflexivity].
  apply (load_n_returns k d off _ cells'); [exact Hcells' | exact Hoff0 | |].
  - rewrite length_take, length_drop. lia.
  - intros i Hi. unfold cells'.
    rewrite lookup_app_l by (rewrite length_take; lia).
    rewrite lookup_take_lt by lia.
    rewrite lookup_take_lt by exact Hi. rewrite lookup_drop. reflexivity.
Qed.

Lemma assign_deep_copy_witness :
  exists a b h h',
    rgb_2x2_and_gray_1x1 = Ret (a, b, h)
    /\ rows_in_buffer a h
    /\ Image.assign (Image.with_data b (Some 3%positive)) a
         (<[3%positive := replicate 16 (Val x2a)]> h)
       = Ret (Image.with_data a (Some 3%positive), h')
    /\ Image.read_pixel (Image.with_data a (Some 3%positive)) 1 1 3 h'
       = Image.read_pixel a 1 1 3 (<[3%positive := replicate 16 (Val x2a)]> h).
Proof.
  eexists _, _, _. 
  assert (Hrun : rgb_2x2_and_gray_1x1
                 = Ret ({| Image.mColorSpace := RGB; Image.mBpp := 24;
                           Image.mWidth := 2; Image.mHeight := 2;
                           Image.mRowSize := 8; Image.mNumberOfChannels := 3;
                           Image.mData := Some 1%positive |},
                        {| Image.mColorSpace := GRAYSCALE; Image.mBpp := 8;
                           Image.mWidth := 1; Image.mHeight := 1;
                           Image.mRowSize := 4; Image.mNumberOfChannels := 1;
                           Image.mData := Some 2%positive |},
                        <[2%positive := replicate 4 Indeterminate]>
                          {[ 1%positive := replicate 16 Indeterminate ]}))
    by (vm_compute; reflexivity).
  set (a := {| Image.mColorSpace := RGB; Image.mBpp := 24;
               Image.mWidth := 2; Image.mHeight := 2;
               Image.mRowSize := 8; Image.mNumberOfChannels := 3;
               Image.mData := Some 1%positive |}) in *.
  set (h := <[2%positive := replicate 4 Indeterminate]>
              {[ 1%positive := replicate 16 Indeterminate ]}) in *.
  assert (Hrows : forall g, g !! 1%positive = Some (replicate 16 Indeterminate) ->
                            rows_in_buffer a g).
  { intros g Hg. exists 1%positive, (replicate 16 Indeterminate).
    repeat split; try exact Hg; vm_compute; (reflexivity || discriminate). }
  destruct (assign_deep_copy
              (Image.with_data
                 {| Image.mColorSpace := GRAYSCALE; Image.mBpp := 8;
                    Image.mWidth := 1; Image.mHeight := 1;
                    Image.mRowSize := 4; Image.mNumberOfChannels := 1;
                    Image.mData := Some 2%positive |} (Some 3%positive))
              a (<[3%positive := replicate 16 (Val x2a)]> h)
              3%positive (replicate 16 (Val x2a)))
    as (h' & Hassign & _ & _ & Hpixels).
  - apply Hrows. vm_compute. reflexivity.
  - vm_compute. discriminate.
  - vm_compute. discriminate.
  - reflexivity.
  - discriminate.
  - apply lookup_insert_eq.
  - vm_compute. discriminate.
  - exists h'. split; [exact Hrun|].
    split; [apply Hrows; vm_compute; reflexivity|].
    split; [exact Hassign|].
    apply (Hpixels 1 1 3%nat); vm_compute;
      (discriminate || (split; [discriminate | reflexivity])).
Defined.

(** ** What a pixel write leaves alone *)

(** X8.  Writing the channel values of the pixel at a valid coordinate
    changes the [channelCount] elements at offset
    [row * rowSize + column * channelCount] of the image's own array and
    nothing else: the array keeps its length, every other element of it
    (the other pixels and the padding of every row) keeps its value, and no
    other array of the store changes. *)
Theorem write_pixel_frame (this : Image.t) (h : store) (row column : Z)
    (values : list byte) :
  rows_in_buffer this h ->
  0 <= row < Image.getHeight this ->
  0 <= column < Image.getWidth this ->
  Z.of_nat (length values) = Image.getNumberOfChannels this ->
  exists h' p cells cells',
    Image.write_pixel this row column values h = Ret h'
    /\ Image.getData this = Some p
    /\ h !! p = Some cells
    /\ h' !! p = Some cells'
    /\ length cells' = length cells
    /\ (forall i : nat,
          ~ (row * Image.getRowSize this + column * Image.getNumberOfChannels this
             <= Z.of_nat i
             < row * Image.getRowSize this
               + column * Image.getNumberOfChannels this
               + Image.getNumberOfChannels this) ->
          cells' !! i = cells !! i)
    /\ (forall q, q <> p -> h' !! q = h !! q).
Proof.
  unfold Image.getHeight, Image.getWidth, Image.getNumberOfChannels,
    Image.getRowSize, Image.getData.
  intros (p & cells & Hd & Hp & Hch & HW & Hlen & Hsize) Hr Hc Hvals.
  assert (Hn : 0 <= Image.mNumberOfChannels this) by lia.
  destruct (pixel_offset_exact this row column Hn HW Hsize Hr Hc)
    as (Hoff & Hoff0 & Hoff1).
  set (off := row * Image.mRowSize this + column * Image.mNumberOfChannels this) in *.
  destruct (store_n_returns (Val <$> values) p off h cells Hp Hoff0)
    as (cells' & Hs & Hl' & _ & Hout).
  { rewrite length_fmap. lia. }
  rewrite length_fmap in Hout.
  exists (<[p := cells']> h), p, cells, cells'.
  split; [unfold Image.write_pixel, Image.pixelAt; rewrite Hd, Hoff; exact Hs|].
  split; [exact Hd|]. split; [exact Hp|]. split; [apply lookup_insert_eq|].
  split; [exact Hl'|].
  split; [intros i Hi; apply Hout; lia|].
  intros q Hq. apply lookup_insert_ne. congruence.
Qed.

Lemma write_pixel_frame_witness :
  rows_in_buffer rgb_3x1 rgb_3x1_store
  /\ exists h' cells',
       Image.write_pixel rgb_3x1 0 2 [x0a; x0b; x0c] rgb_3x1_store = Ret h'
       /\ h' !! 1%positive = Some cells'
       /\ length cells' = 12%nat
       /\ cells' !! 9%nat = Some Indeterminate.
Proof.
  assert (Hrows : rows_in_buffer rgb_3x1 rgb_3x1_store).
  { exists 1%positive, (replicate 12 Indeterminate).
    repeat split; vm_compute; (reflexivity || discriminate). }
  split; [exact Hrows|].
  destruct (write_pixel_frame rgb_3x1 rgb_3x1_store 0 2 [x0a; x0b; x0c] Hrows)
    as (h' & p & cells & cells' & Hw & Hd & Hp & Hp' & Hlen & Hout & _).
  - vm_compute. split; [discriminate | reflexivity].
  - vm_compute. split; [discriminate | reflexivity].
  - reflexivity.
  - injection Hd as <-. vm_compute in Hp. injection Hp as <-.
    exists h', cells'. split; [exact Hw|]. split; [exact Hp'|].
    split; [exact Hlen|].
    rewrite (Hout 9%nat); [reflexivity|].
    vm_compute. intros [_ Hlt]. discriminate Hlt.
Defined.

(** ** The bindings: what they change and in which order *)

Section BindingFacts.

Context `{L : LibJpeg}.

Lemma same_shape_refl (h : store) : same_shape h h.
Proof. intros q. split; reflexivity. Qed.

Lemma same_shape_trans (h1 h2 h3 : store) :
  same_shape h1 h2 -> same_shape h2 h3 -> same_shape h1 h3.
Proof.
  intros H12 H23 q. destruct (H12 q) as [Ha Hs], (H23 q) as [Ha' Hs'].
  split; [congruence | tauto].
Qed.

Lemma store_n_shape (cs : list cell) :
  forall p off h h', Store.store_n p off cs h = Ret h' -> same_shape h h'.
Proof.
  induction cs as [|c cs IH]; intros p off h h' Hrun.
  - injection Hrun as <-. apply same_shape_refl.
  - cbn [Store.store_n] in Hrun. unfold Store.store_cell in Hrun.
    destruct (h !! p) as [cells|] eqn:Hp; [|discriminate].
    destruct (decide _) as [_|_]; [|discriminate].
    cbn [obind] in Hrun. apply IH in Hrun.
    refine (same_shape_trans _ _ _ _ Hrun).
    intros q. unfold Store.allocated.
    destruct (decide (p = q)) as [<-|Hq].
    + rewrite lookup_insert_eq, Hp, length_insert.
      split; [reflexivity|]. split; intros _; eexists; reflexivity.
    + rewrite lookup_insert_ne by exact Hq. split; reflexivity.
Qed.

Lemma as_created_shape (this : Image.t) (h h' : store) :
  as_created this h -> same_shape h h' -> as_created this h'.
Proof.
  intros (Hbpp & Hrow & Hch & p & cells & Hd & Hp & Hlen) Hshape.
  repeat (split; [assumption|]).
  destruct (Hshape p) as [Hal Hsome].
  unfold Store.allocated in Hal. rewrite Hp in Hal.
  destruct (h' !! p) as [cells'|] eqn:Hp'.
  - exists p, cells'. split; [exact Hd|]. split; [exact Hp'|]. lia.
  - assert (Hlive : is_Some (h !! p)) by (rewrite Hp; eexists; reflexivity).
    destruct (proj2 Hsome Hlive) as [x Hx]. discriminate Hx.
Qed.

Lemma create_state (width height : Z) (colorSpace : ColorSpace.Type_)
    (this this' : Image.t) (h h' : store) :
  Image.create width height colorSpace None this h = Ret (this', h') ->
  Image.getWidth this' = width
  /\ Image.getHeight this' = height
  /\ Image.getColorSpace this' = colorSpace
  /\ as_created this' h'.
Proof.
  intros Hc. pose proof (create_live _ _ _ _ _ _ _ _ Hc) as Hl.
  rewrite (create_returns width height colorSpace this h Hl) in Hc.
  injection Hc as <- <-.
  repeat (split; [reflexivity|]).
  unfold as_created.
  cbn [Image.mBpp Image.mColorSpace Image.mRowSize Image.mWidth
       Image.mNumberOfChannels Image.mData Image.mHeight].
  repeat (split; [reflexivity|]).
  eexists _, _. split; [reflexivity|]. split; [apply new_array_lookup|].
  rewrite length_replicate.
  pose proof (to_unsigned_range
                (Image.calculateRowSize width (Image.calculateBpp colorSpace)
                 * height)).
  lia.
Qed.

Lemma read_rows_shape (passes : nat) :
  forall cInfo image row w cInfo' w',
    ImageFile.read_rows passes cInfo image row w = Ret (cInfo', w') ->
    same_shape (heap w) (heap w').
Proof.
  induction passes as [|passes IH]; intros cInfo image row w cInfo' w' Hrun.
  - injection Hrun as <- <-. apply same_shape_refl.
  - cbn [ImageFile.read_rows] in Hrun.
    destruct (Image.pixelAt image row 0) as [[p off]|]; [|discriminate].
    destruct (read_scanline cInfo) as [line|]; [|discriminate].
    cbn [fatal obind] in Hrun.
    destruct (Store.store_n p off (Val <$> line) (heap w)) as [h'| |] eqn:Hs;
      [|discriminate..].
    cbn [obind] in Hrun. apply IH in Hrun.
    cbn [log with_heap heap] in Hrun.
    exact (same_shape_trans _ _ _ (store_n_shape _ _ _ _ _ Hs) Hrun).
Qed.

Lemma write_rows_files (passes : nat) :
  forall cinfo path image row w cinfo' w',
    ImageFile.write_rows passes cinfo path image row w = Ret (cinfo', w') ->
    (forall other, other <> path -> files w' !! other = files w !! other)
    /\ (is_Some (files w !! path) -> is_Some (files w' !! path)).
Proof.
  induction passes as [|passes IH]; intros cinfo path image row w cinfo' w' Hrun.
  - injection Hrun as <- <-. auto.
  - cbn [ImageFile.write_rows] in Hrun.
    destruct (Image.pixelAt image (to_unsigned row) 0) as [[p off]|]; [|discriminate].
    destruct (Store.load_n p off _ (heap w)) as [line| |]; [|discriminate..].
    cbn [obind] in Hrun.
    destruct (write_scanline cinfo line) as [bytes|]; [|discriminate].
    cbn [fatal obind] in Hrun.
    apply IH in Hrun as (Hother & Hpath).
    cbn [log fwrite with_files files] in Hother, Hpath.
    split.
    + intros other Ho. rewrite Hother by exact Ho.
      apply lookup_insert_ne. congruence.
    + intros _. apply Hpath. rewrite lookup_insert_eq. eexists. reflexivity.
Qed.

Lemma fopen_rb (path : string) (w w1 : world) :
  fopen path RB w = Some w1 ->
  w1 = log (Efopen path RB) w /\ is_Some (files w !! path) /\ path ∉ denied w.
Proof.
  unfold fopen. destruct (decide _) as [|Hd]; [discriminate|].
  destruct (files w !! path) as [data|]; [|discriminate].
  intros [= <-]. split; [reflexivity|]. split; [eexists; reflexivity | exact Hd].
Qed.

Lemma fopen_wb (path : string) (w w1 : world) :
  fopen path WB w = Some w1 ->
  w1 = log (Efopen path WB) (with_files w (<[path := []]> (files w)))
  /\ path ∉ denied w.
Proof.
  unfold fopen. destruct (decide _) as [|Hd]; [discriminate|].
  intros [= <-]. split; [reflexivity | exact Hd].
Qed.

(** Everything a return of [loadJPEG] tells. *)
Lemma loadJPEG_returns (path : string) (image image' : Image.t) (w w' : world)
    (b : bool) :
  ImageFile.loadJPEG path image w = Ret (b, image', w') ->
  files w' = files w
  /\ denied w' = denied w
  /\ ((b = false /\ image' = image /\ heap w' = heap w
       /\ (w' = w \/ events w' = events w ++ decode_trace path 0))
      \/ (b = true
          /\ is_Some (files w !! path)
          /\ (path ∉ denied w)
          /\ Image.getColorSpace image' <> UNKNOWN
          /\ as_created image' (heap w')
          /\ exists k, events w' = events w ++ decode_trace path k)).
Proof.
  unfold ImageFile.loadJPEG.
  destruct (fopen path RB w) as [w1|] eqn:Hopen.
  2:{ intros [= <- <- <-]. split; [reflexivity|]. split; [reflexivity|].
      left. auto. }
  apply fopen_rb in Hopen as (-> & Hfile & Hden).
  destruct (read_header _) as [cInfo0|]; [|discriminate]. cbn [fatal obind].
  destruct (start_decompress cInfo0) as [cInfo|]; [|discriminate].
  cbn [fatal obind].
  assert (Hcs : forall cs,
             match out_color_space cInfo with
             | JCS_GRAYSCALE => Some GRAYSCALE
             | JCS_RGB | JCS_EXT_RGB => Some RGB
             | JCS_EXT_RGBA => Some RGBA
             | _ => None
             end = Some cs -> cs <> UNKNOWN).
  { intros cs. destruct (out_color_space cInfo); intros [= <-]; discriminate. }
  destruct (match out_color_space cInfo with
            | JCS_GRAYSCALE => Some GRAYSCALE
            | JCS_RGB | JCS_EXT_RGB => Some RGB
            | JCS_EXT_RGBA => Some RGBA
            | _ => None
            end) as [colorSpace|].
  - specialize (Hcs colorSpace eq_refl).
    destruct (Image.create _ _ _ _ _ _) as [[image1 h1]| |] eqn:Hcreate;
      [|discriminate..].
    cbn [obind].
    destruct (ImageFile.read_rows _ _ _ _ _) as [[cInfo' w7]| |] eqn:Hrows;
      [|discriminate..].
    cbn [obind].
    destruct (finish_decompress cInfo'); [|discriminate].
    intros [= <- <- <-].
    pose proof (read_rows_shape _ _ _ _ _ _ _ Hrows) as Hshape.
    apply read_rows_events in Hrows as (Hev7 & Hf7 & Hd7).
    apply create_state in Hcreate as (_ & _ & Hcolor & Hstate).
    cbn [fclose log with_heap events files denied heap] in *.
    split; [exact Hf7|]. split; [exact Hd7|]. right.
    split; [reflexivity|]. split; [exact Hfile|]. split; [exact Hden|].
    split; [rewrite Hcolor; exact Hcs|].
    split; [exact (as_created_shape _ _ _ Hstate Hshape)|].
    eexists. rewrite Hev7. unfold decode_trace.
    rewrite <- !app_assoc. reflexivity.
  - destruct (finish_decompress cInfo); [|discriminate].
    intros [= <- <- <-].
    cbn [fclose log events files denied heap].
    split; [reflexivity|]. split; [reflexivity|]. left.
    split; [reflexivity|]. split; [reflexivity|]. split; [reflexivity|].
    right. unfold decode_trace. rewrite <- !app_assoc. reflexivity.
Qed.

(** Everything a return of [saveJPEG] tells. *)
Lemma saveJPEG_returns (path : string) (image : Image.t) (quality : Z)
    (w w' : world) (b : bool) :
  ImageFile.saveJPEG path image quality w = Ret (b, w') ->
  heap w' = heap w
  /\ denied w' = denied w
  /\ (forall other, other <> path -> files w' !! other = files w !! other)
  /\ (b = true ->
      (path ∉ denied w)
      /\ Image.getColorSpace image <> UNKNOWN
      /\ is_Some (files w' !! path)
      /\ exists k, events w' = events w ++ encode_trace path quality k).
Proof.
  unfold ImageFile.saveJPEG.
  destruct (fopen path WB w) as [w1|] eqn:Hopen.
  2:{ intros [= <- <-]. repeat (split; [reflexivity|]). discriminate. }
  apply fopen_wb in Hopen as (-> & Hden).
  destruct (Image.getColorSpace image) eqn:Hcs.
  { intros [= <- <-]. cbn [log with_files heap denied files events].
    split; [reflexivity|]. split; [reflexivity|].
    split; [intros other Ho; apply lookup_insert_ne; congruence | discriminate]. }
  all: destruct (set_defaults _) as [cinfo|]; [|discriminate]; cbn [fatal obind].
  all: destruct (start_compress _) as [header|]; [|discriminate]; cbn [fatal obind].
  all: destruct (ImageFile.write_rows _ _ _ _ _ _) as [[cinfo' w7]| |] eqn:Hrows;
    [|discriminate..]; cbn [obind].
  all: destruct (finish_compress cinfo') as [trailer|]; [|discriminate];
    cbn [fatal obind].
  all: intros [= <- <-].
  all: pose proof (write_rows_files _ _ _ _ _ _ _ _ Hrows) as (Hother & Hpath).
  all: apply write_rows_events in Hrows as (Hev7 & Hh7 & Hd7).
  all: cbn [fclose log fwrite with_files events heap denied files] in *.
  all: split; [exact Hh7|]; split; [exact Hd7|].
  all: split;
    [ intros other Ho; rewrite lookup_insert_ne by congruence;
      rewrite Hother by exact Ho; rewrite lookup_insert_ne by congruence;
      apply lookup_insert_ne; congruence |].
  all: intros _; split; [exact Hden|]; split; [discriminate|].
  all: split; [rewrite lookup_insert_eq; eexists; reflexivity|].
  all: eexists; rewrite Hev7; unfold encode_trace; rewrite <- !app_assoc.
  all: reflexivity.
Qed.

End BindingFacts.

(** X9.  [load] releases what it acquires: whenever it returns, with
    either result, every file it opened is closed and every decompression
    context it created is destroyed. *)
Theorem load_releases `{L : LibJpeg} (path : string) (image image' : Image.t)
    (w w' : world) (b : bool) :
  ImageFile.load path image w = Ret (b, image', w') -> released w w'.
Proof.
  unfold ImageFile.load.
  destruct (ImageFile.checkFileExtension path).
  - intros [= <- <- <-]. split; reflexivity.
  - apply loadJPEG_released.
Qed.

Lemma load_releases_witness :
  exists image' w',
    @ImageFile.load raw_codec "in.jpg" Image.Image_default
      (world_with_file "in.jpg" raw_rgb_2x1 ∅) = Ret (true, image', w')
    /\ released (world_with_file "in.jpg" raw_rgb_2x1 ∅) w'.
Proof.
  eexists _, _.
  assert (Hrun : forall r,
            r = @ImageFile.load raw_codec "in.jpg" Image.Image_default
                  (world_with_file "in.jpg" raw_rgb_2x1 ∅) ->
            forall image' w', r = Ret (true, image', w') ->
            released (world_with_file "in.jpg" raw_rgb_2x1 ∅) w').
  { intros r -> image' w' Hr. exact (load_releases _ _ _ _ _ _ Hr). }
  split; [vm_compute; reflexivity|].
  eapply Hrun; [reflexivity|]. vm_compute. reflexivity.
Defined.

(** X10.  [load] never changes the file system, and a [load] that returns
    [false], for whatever reason (no format, no file, or a color space of
    the stream that is not supported), returns the image it was given and
    leaves the store as it was. *)
Theorem load_frame `{L : LibJpeg} (path : string) (image image' : Image.t)
    (w w' : world) (b : bool) :
  ImageFile.load path image w = Ret (b, image', w') ->
  files w' = files w
  /\ denied w' = denied w
  /\ (b = false -> image' = image /\ heap w' = heap w).
Proof.
  unfold ImageFile.load.
  destruct (ImageFile.checkFileExtension path).
  - intros [= <- <- <-]. auto.
  - intros Hrun.
    apply loadJPEG_returns in Hrun
      as (Hf & Hd & [(_ & Himg & Hheap & _)|(-> & _)]).
    + auto.
    + split; [exact Hf|]. split; [exact Hd|]. discriminate.
Qed.

Lemma load_frame_witness :
  exists w',
    @ImageFile.load raw_codec "cmyk.jpg" rgb_3x1
      (world_with_file "cmyk.jpg" [x04; x01; x00] rgb_3x1_store)
    = Ret (false, rgb_3x1, w')
    /\ files w' = files (world_with_file "cmyk.jpg" [x04; x01; x00] rgb_3x1_store)
    /\ heap w' = rgb_3x1_store.
Proof.
  eexists.
  assert (Hrun : forall image' w',
            @ImageFile.load raw_codec "cmyk.jpg" rgb_3x1
              (world_with_file "cmyk.jpg" [x04; x01; x00] rgb_3x1_store)
            = Ret (false, image', w') ->
            files w'
            = files (world_with_file "cmyk.jpg" [x04; x01; x00] rgb_3x1_store)
            /\ heap w' = rgb_3x1_store).
  { intros image' w' Hr.
    destruct (load_frame _ _ _ _ _ _ Hr) as (Hf & _ & Hfalse).
    split; [exact Hf | exact (proj2 (Hfalse eq_refl))]. }
  split; [vm_compute; reflexivity|].
  eapply Hrun. vm_compute. reflexivity.
Defined.

(** X11.  A [load] that returns [true] was given a non-empty path of an
    existing file that is not denied, and returns an image whose color space
    is GRAYSCALE, RGB or RGBA and which is in the state [as_created]: derived
    fields consistent with the width and the color space, and a live buffer
    of [rowSize * height] elements. *)
Theorem load_success `{L : LibJpeg} (path : string) (image image' : Image.t)
    (w w' : world) :
  ImageFile.load path image w = Ret (true, image', w') ->
  path <> EmptyString
  /\ is_Some (files w !! path)
  /\ (path ∉ denied w)
  /\ Image.getColorSpace image' <> UNKNOWN
  /\ as_created image' (heap w').
Proof.
  unfold ImageFile.load, ImageFile.checkFileExtension.
  destruct (ImageFile.empty path) eqn:Hempty; [discriminate|].
  intros Hrun.
  apply loadJPEG_returns in Hrun
    as (_ & _ & [(Hb & _)|(_ & Hfile & Hden & Hcs & Hstate & _)]);
    [discriminate Hb|].
  split; [intros ->; discriminate Hempty|]. auto.
Qed.

Lemma load_success_witness :
  exists image' w',
    @ImageFile.load raw_codec "in.jpg" Image.Image_default
      (world_with_file "in.jpg" raw_rgb_2x1 ∅) = Ret (true, image', w')
    /\ Image.getColorSpace image' <> UNKNOWN
    /\ as_created image' (heap w').
Proof.
  eexists _, _.
  assert (Hrun : forall image' w',
            @ImageFile.load raw_codec "in.jpg" Image.Image_default
              (world_with_file "in.jpg" raw_rgb_2x1 ∅) = Ret (true, image', w') ->
            Image.getColorSpace image' <> UNKNOWN /\ as_created image' (heap w')).
  { intros image' w' Hr.
    destruct (load_success _ _ _ _ _ Hr) as (_ & _ & _ & Hcs & Hstate). auto. }
  split; [vm_compute; reflexivity|].
  eapply Hrun. vm_compute. reflexivity.
Defined.

(** X12.  The calls of [load] follow the decoding protocol.  Either nothing
    happens at all (no format, or the file cannot be opened), or the events
    are, in this order: the file is opened, the context is created, the
    source is attached, the header is read, decompression is started, rows
    are read, decompression is finished, the context is destroyed, the file
    is closed.  No row is read when the result is [false]. *)
Theorem load_protocol `{L : LibJpeg} (path : string) (image image' : Image.t)
    (w w' : world) (b : bool) :
  ImageFile.load path image w = Ret (b, image', w') ->
  (b = false /\ w' = w)
  \/ exists k,
       events w' = events w ++ decode_trace path k
       /\ (b = false -> k = 0%nat).
Proof.
  unfold ImageFile.load.
  destruct (ImageFile.checkFileExtension path).
  - intros [= <- <- <-]. left. auto.
  - intros Hrun.
    apply loadJPEG_returns in Hrun
      as (_ & _ & [(-> & _ & _ & [Hw|Hev])|(-> & _ & _ & _ & _ & k & Hev)]).
    + left. auto.
    + right. exists 0%nat. auto.
    + right. exists k. split; [exact Hev | discriminate].
Qed.

Lemma load_protocol_witness :
  exists image' w',
    @ImageFile.load raw_codec "in.jpg" Image.Image_default
      (world_with_file "in.jpg" raw_rgb_2x1 ∅) = Ret (true, image', w')
    /\ exists k, events w' = decode_trace "in.jpg" k.
Proof.
  eexists _, _.
  assert (Hrun : forall image' w',
            @ImageFile.load raw_codec "in.jpg" Image.Image_default
              (world_with_file "in.jpg" raw_rgb_2x1 ∅) = Ret (true, image', w') ->
            exists k, events w' = decode_trace "in.jpg" k).
  { intros image' w' Hr.
    destruct (load_protocol _ _ _ _ _ _ Hr) as [(Hb & _)|(k & Hev & _)];
      [discriminate Hb|].
    exists k. exact Hev. }
  split; [vm_compute; reflexivity|].
  eapply Hrun. vm_compute. reflexivity.
Defined.

(** X13.  For an image whose color space is GRAYSCALE, RGB or RGBA, [save]
    releases what it acquires: whenever it returns, every file it opened is
    closed and every compression context it created is destroyed. *)
Theorem save_releases `{L : LibJpeg} (path : string) (image : Image.t)
    (w w' : world) (b : bool) :
  Image.getColorSpace image <> UNKNOWN ->
  ImageFile.save path image w = Ret (b, w') -> released w w'.
Proof.
  intros Hcs. unfold ImageFile.save.
  destruct (ImageFile.checkFileExtension path).
  - intros [= <- <-]. split; reflexivity.
  - apply saveJPEG_released. exact Hcs.
Qed.

Lemma save_releases_witness :
  Image.getColorSpace rgb_3x1 <> UNKNOWN
  /\ exists w',
       @ImageFile.save raw_codec "out.jpg" rgb_3x1
         (world_with_file "in.jpg" raw_rgb_2x1 rgb_3x1_store) = Ret (true, w')
       /\ released (world_with_file "in.jpg" raw_rgb_2x1 rgb_3x1_store) w'.
Proof.
  split; [discriminate|]. eexists.
  assert (Hrun : forall w',
            @ImageFile.save raw_codec "out.jpg" rgb_3x1
              (world_with_file "in.jpg" raw_rgb_2x1 rgb_3x1_store) = Ret (true, w') ->
            released (world_with_file "in.jpg" raw_rgb_2x1 rgb_3x1_store) w').
  { intros w' Hr.
    apply (@save_releases raw_codec "out.jpg" rgb_3x1 _ w' true);
      [discriminate | exact Hr]. }
  split; [vm_compute; reflexivity|].
  eapply Hrun. vm_compute. reflexivity.
Defined.

(** X14.  [save] reads the image and writes one file: whenever it returns,
    the store is as it was, and so is every file other than the one at the
    path it was given. *)
Theorem save_frame `{L : LibJpeg} (path : string) (image : Image.t)
    (w w' : world) (b : bool) :
  ImageFile.save path image w = Ret (b, w') ->
  heap w' = heap w
  /\ denied w' = denied w
  /\ (forall other, other <> path -> files w' !! other = files w !! other).
Proof.
  unfold ImageFile.save.
  destruct (ImageFile.checkFileExtension path).
  - intros [= <- <-]. auto.
  - intros Hrun. apply saveJPEG_returns in Hrun as (Hh & Hd & Hother & _). auto.
Qed.

Lemma save_frame_witness :
  exists w',
    @ImageFile.save raw_codec "out.jpg" rgb_3x1
      (world_with_file "in.jpg" raw_rgb_2x1 rgb_3x1_store) = Ret (true, w')
    /\ heap w' = rgb_3x1_store
    /\ files w' !! "in.jpg" = Some raw_rgb_2x1.
Proof.
  eexists.
  assert (Hrun : forall w',
            @ImageFile.save raw_codec "out.jpg" rgb_3x1
              (world_with_file "in.jpg" raw_rgb_2x1 rgb_3x1_store) = Ret (true, w') ->
            heap w' = rgb_3x1_store /\ files w' !! "in.jpg" = Some raw_rgb_2x1).
  { intros w' Hr. destruct (save_frame _ _ _ _ _ Hr) as (Hh & _ & Hother).
    split; [exact Hh|]. rewrite Hother by (intros Heq; discriminate Heq).
    vm_compute. reflexivity. }
  split; [vm_compute; reflexivity|].
  eapply Hrun. vm_compute. reflexivity.
Defined.

(** X15.  A [save] that returns [true] was given a non-empty path that is
    not denied and an image of color space GRAYSCALE, RGB or RGBA; the file
    at the path exists afterwards; and the events are those of the encoding
    protocol, in this order: the file is opened, the context is created, the
    destination is attached, the defaults and the quality 100 are set,
    compression is started, rows are written, compression is finished, the
    context is destroyed, the file is closed. *)
Theorem save_success `{L : LibJpeg} (path : string) (image : Image.t)
    (w w' : world) :
  ImageFile.save path image w = Ret (true, w') ->
  path <> EmptyString
  /\ (path ∉ denied w)
  /\ Image.getColorSpace image <> UNKNOWN
  /\ is_Some (files w' !! path)
  /\ exists k, events w' = events w ++ encode_trace path 100 k.
Proof.
  unfold ImageFile.save, ImageFile.checkFileExtension.
  destruct (ImageFile.empty path) eqn:Hempty; [discriminate|].
  intros Hrun.
  apply saveJPEG_returns in Hrun as (_ & _ & _ & Htrue).
  split; [intros ->; discriminate Hempty|]. exact (Htrue eq_refl).
Qed.

Lemma save_success_witness :
  exists w',
    @ImageFile.save raw_codec "out.jpg" rgb_3x1
      (world_with_file "in.jpg" raw_rgb_2x1 rgb_3x1_store) = Ret (true, w')
    /\ is_Some (files w' !! "out.jpg")
    /\ exists k, events w' = encode_trace "out.jpg" 100 k.
Proof.
  eexists.
  assert (Hrun : forall w',
            @ImageFile.save raw_codec "out.jpg" rgb_3x1
              (world_with_file "in.jpg" raw_rgb_2x1 rgb_3x1_store) = Ret (true, w') ->
            is_Some (files w' !! "out.jpg")
            /\ exists k, events w' = encode_trace "out.jpg" 100 k).
  { intros w' Hr.
    destruct (save_success _ _ _ _ Hr) as (_ & _ & _ & Hfile & Hev). auto. }
  split; [vm_compute; reflexivity|].
  eapply Hrun. vm_compute. reflexivity.
Defined.

(** ** The buffer of a loaded image *)

Section LoadedBuffer.

Context `{L : LibJpeg}.

Lemma store_n_other (cs : list cell) :
  forall p off h h' q,
    Store.store_n p off cs h = Ret h' -> q <> p -> h' !! q = h !! q.
Proof.
  induction cs as [|c cs IH]; intros p off h h' q Hrun Hq.
  - injection Hrun as <-. reflexivity.
  - cbn [Store.store_n] in Hrun. unfold Store.store_cell in Hrun.
    destruct (h !! p) as [cells|]; [|discriminate].
    destruct (decide _) as [_|_]; [|discriminate].
    cbn [obind] in Hrun. rewrite (IH _ _ _ _ q Hrun Hq).
    apply lookup_insert_ne. congruence.
Qed.

Lemma read_rows_other (passes : nat) :
  forall cInfo image row w cInfo' w' p q,
    ImageFile.read_rows passes cInfo image row w = Ret (cInfo', w') ->
    Image.mData image = Some p -> q <> p ->
    heap w' !! q = heap w !! q.
Proof.
  induction passes as [|passes IH]; intros cInfo image row w cInfo' w' p q Hrun Hp Hq.
  - injection Hrun as <- <-. reflexivity.
  - cbn [ImageFile.read_rows] in Hrun. unfold Image.pixelAt in Hrun.
    rewrite Hp in Hrun.
    destruct (read_scanline cInfo) as [line|]; [|discriminate].
    cbn [fatal obind] in Hrun.
    destruct (Store.store_n p _ (Val <$> line) (heap w)) as [h'| |] eqn:Hs;
      [|discriminate..].
    cbn [obind] in Hrun.
    rewrite (IH _ _ _ _ _ _ p q Hrun Hp Hq). cbn [log with_heap heap].
    exact (store_n_other _ _ _ _ _ q Hs Hq).
Qed.

Lemma loadJPEG_store (path : string) (image image' : Image.t) (w w' : world) :
  ImageFile.loadJPEG path image w = Ret (true, image', w') ->
  live image (heap w)
  /\ exists p,
       Image.getData image' = Some p
       /\ released_store image (heap w) !! p = None
       /\ is_Some (heap w' !! p)
       /\ forall q, q <> p -> heap w' !! q = released_store image (heap w) !! q.
Proof.
  unfold ImageFile.loadJPEG.
  destruct (fopen path RB w) as [w1|] eqn:Hopen; [|discriminate].
  apply fopen_rb in Hopen as (-> & _ & _).
  destruct (read_header _) as [cInfo0|]; [|discriminate]. cbn [fatal obind].
  destruct (start_decompress cInfo0) as [cInfo|]; [|discriminate].
  cbn [fatal obind].
  destruct (match out_color_space cInfo with
            | JCS_GRAYSCALE => Some GRAYSCALE
            | JCS_RGB | JCS_EXT_RGB => Some RGB
            | JCS_EXT_RGBA => Some RGBA
            | _ => None
            end) as [colorSpace|].
  2:{ destruct (finish_decompress cInfo); discriminate. }
  cbn [log heap].
  destruct (Image.create _ _ _ _ _ _) as [[image1 h1]| |] eqn:Hcreate;
    [|discriminate..].
  cbn [obind].
  destruct (ImageFile.read_rows _ _ _ _ _) as [[cInfo' w7]| |] eqn:Hrows;
    [|discriminate..].
  cbn [obind].
  destruct (finish_decompress cInfo'); [|discriminate].
  intros [= <- <-].
  pose proof (create_live _ _ _ _ _ _ _ _ Hcreate) as Hl.
  split; [exact Hl|].
  rewrite (create_returns _ _ _ image (heap w) Hl) in Hcreate.
  injection Hcreate as <- <-.
  set (h0 := released_store image (heap w)) in *.
  set (n := to_unsigned _) in *.
  exists (Store.new_array n h0).1.
  split; [reflexivity|]. split; [apply new_array_fresh|].
  pose proof (read_rows_shape _ _ _ _ _ _ _ Hrows) as Hshape.
  cbn [fclose log with_heap heap] in *.
  split.
  - apply (proj2 (Hshape _)). rewrite new_array_lookup. eexists. reflexivity.
  - intros q Hq.
    rewrite (read_rows_other _ _ _ _ _ _ _ _ q Hrows eq_refl Hq).
    cbn [with_heap log heap]. unfold Store.new_array in *. cbn [snd fst] in *.
    apply lookup_insert_ne. intros Heq. apply Hq. symmetry. exact Heq.
Qed.

End LoadedBuffer.

(** X16.  A successful [load] replaces the buffer of the target image: the
    array the image had before is freed, the image gets an array that was
    not live before, and every other array of the store keeps its
    contents. *)
Theorem load_replaces_buffer `{L : LibJpeg} (path : string)
    (image image' : Image.t) (w w' : world) :
  ImageFile.load path image w = Ret (true, image', w') ->
  live image (heap w)
  /\ exists p,
       Image.getData image' = Some p
       /\ is_Some (heap w' !! p)
       /\ (Image.getData image <> Some p -> heap w !! p = None)
       /\ (forall r, Image.getData image = Some r -> r <> p -> heap w' !! r = None)
       /\ (forall q, q <> p -> Image.getData image <> Some q ->
                     heap w' !! q = heap w !! q).
Proof.
  unfold ImageFile.load.
  destruct (ImageFile.checkFileExtension path); [discriminate|].
  intros Hrun.
  apply loadJPEG_store in Hrun as (Hl & p & Hp & Hfresh & Hlive & Hother).
  split; [exact Hl|]. exists p.
  split; [exact Hp|]. split; [exact Hlive|].
  unfold released_store, Image.getData in *.
  destruct (Image.mData image) as [r|].
  - split.
    { intros Hr. rewrite lookup_delete_ne in Hfresh by congruence. exact Hfresh. }
    split.
    { intros r' [= <-] Hrp. rewrite Hother by exact Hrp. apply lookup_delete_eq. }
    intros q Hq Hqr. rewrite Hother by exact Hq.
    apply lookup_delete_ne. congruence.
  - split; [intros _; exact Hfresh|].
    split; [discriminate|]. intros q Hq _. apply Hother. exact Hq.
Qed.

Lemma load_replaces_buffer_witness :
  exists image' w' p,
    @ImageFile.load raw_codec "in.jpg" rgb_3x1
      (world_with_file "in.jpg" raw_rgb_2x1
         (<[7%positive := [Val x01]]> rgb_3x1_store)) = Ret (true, image', w')
    /\ Image.getData image' = Some p
    /\ is_Some (heap w' !! p)
    /\ (7%positive <> p -> heap w' !! 7%positive = Some [Val x01]).
Proof.
  eexists _, _.
  assert (Hrun : forall image' w',
            @ImageFile.load raw_codec "in.jpg" rgb_3x1
              (world_with_file "in.jpg" raw_rgb_2x1
                 (<[7%positive := [Val x01]]> rgb_3x1_store))
            = Ret (true, image', w') ->
            exists p,
              Image.getData image' = Some p
              /\ is_Some (heap w' !! p)
              /\ (7%positive <> p -> heap w' !! 7%positive = Some [Val x01])).
  { intros image' w' Hr.
    destruct (load_replaces_buffer _ _ _ _ _ Hr)
      as (_ & p & Hp & Hlive & _ & _ & Hother).
    exists p. split; [exact Hp|]. split; [exact Hlive|].
    intros Hne. rewrite Hother; [vm_compute; reflexivity | exact Hne | discriminate]. }
  eapply ex_intro. split; [vm_compute; reflexivity|].
  destruct (Hrun _ _ ltac:(vm_compute; reflexivity)) as (p & Hp & Hlive & Hother).
  vm_compute in Hp. injection Hp as <-.
  split; [reflexivity|]. split; [exact Hlive | exact Hother].
Defined.

(** ** The sample program *)

Section MainFacts.

Context `{L : LibJpeg}.

Lemma released_trans (w1 w2 w3 : world) :
  released w1 w2 -> released w2 w3 -> released w1 w3.
Proof. unfold released. intros [Hf Hc] [Hf' Hc']. split; congruence. Qed.

End MainFacts.

(** X17.  Whenever [main] returns, one of three things happened.  With an
    argument count other than 2 the status is 1 and nothing was done.  With
    a load that failed the status is 1, the message was printed, and neither
    the store nor any file changed.  Otherwise the status is 0 whatever the
    result of the save: the store is again as it was at the start (the
    buffer of the loaded image was freed), no file other than
    [lena_copy.jpg] changed, and every file opened and every codec context
    created, for loading and for saving, was released. *)
Theorem main_returns `{L : LibJpeg} (argv : list string) (w w' : world)
    (status : Z) (out : list string) :
  Sample.main argv w = Ret (status, out, w') ->
  (status = 1 /\ out = [] /\ length argv <> 2%nat /\ w' = w)
  \/ (status = 1
      /\ out = [String.append "Fail to open file." Sample.newline]
      /\ length argv = 2%nat
      /\ heap w' = heap w /\ files w' = files w /\ released w w')
  \/ (status = 0 /\ out = []
      /\ length argv = 2%nat
      /\ heap w' = heap w
      /\ (forall other, other <> "lena_copy.jpg" ->
                        files w' !! other = files w !! other)
      /\ released w w').
Proof.
  unfold Sample.main.
  destruct (decide _) as [Hargc|Hargc].
  { intros [= <- <- <-]. left. repeat split; try reflexivity. lia. }
  assert (Hlen : length argv = 2%nat) by lia.
  destruct (ImageFile.load _ _ w) as [[[ok image] w1]| |] eqn:Hload;
    [|discriminate..].
  cbn [obind].
  destruct ok; cbn [negb].
  - destruct (ImageFile.save _ image w1) as [[saved w2]| |] eqn:Hsave;
      [|discriminate..].
    cbn [obind].
    destruct (Image.Image_dtor image (heap w2)) as [h| |] eqn:Hdtor;
      [|discriminate..].
    cbn [obind]. intros [= <- <- <-].
    right. right.
    unfold ImageFile.load in Hload.
    destruct (ImageFile.checkFileExtension _); [discriminate|].
    pose proof (loadJPEG_released _ _ _ _ _ _ Hload) as Hrel1.
    pose proof (loadJPEG_returns _ _ _ _ _ _ Hload)
      as (Hf1 & _ & [(Hb & _)|(_ & _ & _ & Hcs & _)]); [discriminate Hb|].
    apply loadJPEG_store in Hload as (_ & p & Hp & Hfresh & Hlive & Hother).
    cbn [released_store Image.Image_default Image.mData] in Hfresh, Hother.
    unfold ImageFile.save in Hsave. cbn in Hsave.
    pose proof (saveJPEG_released _ _ _ _ _ _ Hcs Hsave) as Hrel2.
    apply saveJPEG_returns in Hsave as (Hh2 & _ & Hfiles2 & _).
    unfold Image.Image_dtor, Store.delete_array, Image.getData in *.
    rewrite Hp, Hh2 in Hdtor.
    destruct Hlive as [cells Hcells]. rewrite Hcells in Hdtor.
    injection Hdtor as <-.
    split; [reflexivity|]. split; [reflexivity|]. split; [exact Hlen|].
    cbn [with_heap heap files events].
    split.
    { apply map_eq. intros q. destruct (decide (q = p)) as [->|Hq].
      - rewrite lookup_delete_eq. symmetry. exact Hfresh.
      - rewrite lookup_delete_ne by congruence. apply Hother. exact Hq. }
    split.
    { intros other Ho. rewrite Hfiles2 by exact Ho. rewrite Hf1. reflexivity. }
    exact (released_trans _ _ _ Hrel1 Hrel2).
  - intros [= <- <- <-]. right. left.
    unfold ImageFile.load in Hload.
    destruct (ImageFile.checkFileExtension _).
    + injection Hload as <- <-. repeat split; try reflexivity. exact Hlen.
    + pose proof (loadJPEG_released _ _ _ _ _ _ Hload) as Hrel1.
      pose proof (loadJPEG_returns _ _ _ _ _ _ Hload)
        as (Hf1 & _ & [(_ & _ & Hh & _)|(Hb & _)]); [|discriminate Hb].
      repeat split; try assumption; try reflexivity; apply Hrel1.
Qed.

Lemma main_returns_witness :
  exists w',
    @Sample.main raw_codec ["sample"; "in.jpg"]
      (world_with_file "in.jpg" raw_rgb_2x1 ∅) = Ret (0, [], w')
    /\ heap w' = ∅
    /\ files w' !! "in.jpg" = Some raw_rgb_2x1
    /\ files w' !! "lena_copy.jpg" = Some raw_rgb_2x1
    /\ released (world_with_file "in.jpg" raw_rgb_2x1 ∅) w'.
Proof.
  eexists.
  assert (Hrun : forall w',
            @Sample.main raw_codec ["sample"; "in.jpg"]
              (world_with_file "in.jpg" raw_rgb_2x1 ∅) = Ret (0, [], w') ->
            heap w' = ∅
            /\ released (world_with_file "in.jpg" raw_rgb_2x1 ∅) w').
  { intros w' Hr.
    destruct (main_returns _ _ _ _ _ Hr)
      as [(Hs & _)|[(Hs & _)|(_ & _ & _ & Hh & _ & Hrel)]];
      [discriminate Hs | discriminate Hs |].
    split; [exact Hh | exact Hrel]. }
  split; [vm_compute; reflexivity|].
  destruct (Hrun _ ltac:(vm_compute; reflexivity)) as (Hh & Hrel).
  split; [exact Hh|].
  split; [vm_compute; reflexivity|].
  split; [vm_compute; reflexivity | exact Hrel].
Defined.

(** ** ImageOperator *)

Section Compatible.

Lemma areCompatible_iff (imageA imageB : Image.t) :
  ImageOperator.areCompatible imageA imageB = true
  <-> Image.getWidth imageA = Image.getWidth imageB
      /\ Image.getHeight imageA = Image.getHeight imageB
      /\ Image.getColorSpace imageA = Image.getColorSpace imageB.
Proof.
  unfold ImageOperator.areCompatible.
  rewrite !andb_true_iff, !Z.eqb_eq, bool_decide_eq_true. tauto.
Qed.

End Compatible.

(** X18.  [add], as far as the source implements it, only prepares the
    output image.  When the two inputs are not compatible it does nothing.
    When they are, it returns an output image that is compatible with both
    inputs: the output it was given, untouched, if that was compatible
    already, and otherwise a newly created image with the width, height and
    color space of the inputs. *)
Theorem add_prepares_output (outputImage imageA imageB : Image.t) (h : store) :
  live outputImage h ->
  (ImageOperator.areCompatible imageA imageB = false ->
   ImageOperator.add outputImage imageA imageB h = Ret (outputImage, h))
  /\ (ImageOperator.areCompatible imageA imageB = true ->
      exists output' h',
        ImageOperator.add outputImage imageA imageB h = Ret (output', h')
        /\ ImageOperator.areCompatible output' imageA = true
        /\ ImageOperator.areCompatible output' imageB = true
        /\ (ImageOperator.areCompatible outputImage imageA = true ->
            output' = outputImage /\ h' = h)
        /\ (ImageOperator.areCompatible outputImage imageA = false ->
            as_created output' h')).
Proof.
  intros Hl. unfold ImageOperator.add. split.
  - intros ->. reflexivity.
  - intros HAB. rewrite HAB. cbn [negb].
    destruct (ImageOperator.areCompatible outputImage imageA) eqn:HoA; cbn [negb].
    + exists outputImage, h. split; [reflexivity|]. split; [exact HoA|].
      split; [|split; [auto | discriminate]].
      apply areCompatible_iff in HoA, HAB. apply areCompatible_iff.
      destruct HoA as (? & ? & ?), HAB as (? & ? & ?). repeat split; congruence.
    + pose proof (create_returns (Image.getWidth imageA) (Image.getHeight imageA)
                    (Image.getColorSpace imageA) outputImage h Hl) as Hc.
      cbv zeta in Hc. eexists _, _. split; [exact Hc|].
      pose proof (create_state _ _ _ _ _ _ _ Hc) as (Hw & Hh & Hcs & Hstate).
      assert (HA : ImageOperator.areCompatible
                     {| Image.mColorSpace := Image.getColorSpace imageA;
                        Image.mBpp := Image.calculateBpp (Image.getColorSpace imageA);
                        Image.mWidth := Image.getWidth imageA;
                        Image.mHeight := Image.getHeight imageA;
                        Image.mRowSize :=
                          Image.calculateRowSize (Image.getWidth imageA)
                            (Image.calculateBpp (Image.getColorSpace imageA));
                        Image.mNumberOfChannels :=
                          calculateNumberOfChannels (Image.getColorSpace imageA);
                        Image.mData :=
                          Some (Store.new_array
                                  (to_unsigned
                                     (Image.calculateRowSize (Image.getWidth imageA)
                                        (Image.calculateBpp
                                           (Image.getColorSpace imageA))
                                      * Image.getHeight imageA))
                                  (released_store outputImage h)).1 |}
                     imageA = true).
      { apply areCompatible_iff. repeat split. }
      split; [exact HA|].
      split.
      { apply areCompatible_iff in HA, HAB. apply areCompatible_iff.
        destruct HA as (? & ? & ?), HAB as (? & ? & ?). repeat split; congruence. }
      split; [discriminate | intros _; exact Hstate].
Qed.

Lemma add_prepares_output_witness :
  live Image.Image_default rgb_3x1_store
  /\ ImageOperator.areCompatible rgb_3x1 rgb_3x1 = true
  /\ exists output' h',
       ImageOperator.add Image.Image_default rgb_3x1 rgb_3x1 rgb_3x1_store
       = Ret (output', h')
       /\ ImageOperator.areCompatible output' rgb_3x1 = true.
Proof.
  split; [exact I|]. split; [reflexivity|].
  destruct (proj2 (add_prepares_output Image.Image_default rgb_3x1 rgb_3x1
                     rgb_3x1_store I) eq_refl)
    as (output' & h' & Hadd & HA & _).
  exists output', h'. split; [exact Hadd | exact HA].
Defined.

(** ** More on assignment *)

(** X19.  Whenever [operator=] returns, the destination has the six layout
    fields of the source, and the pointer and the array length it had
    before the assignment: the array is never replaced, whatever the two
    sizes are. *)
Theorem assign_keeps_array (this image this' : Image.t) (h h' : store) :
  Image.assign this image h = Ret (this', h') ->
  Image.getWidth this' = Image.getWidth image
  /\ Image.getHeight this' = Image.getHeight image
  /\ Image.getRowSize this' = Image.getRowSize image
  /\ Image.getNumberOfChannels this' = Image.getNumberOfChannels image
  /\ Image.getColorSpace this' = Image.getColorSpace image
  /\ Image.mBpp this' = Image.mBpp image
  /\ Image.getData this' = Image.getData this
  /\ Image.allocated this' h' = Image.allocated this h.
Proof.
  intros Hrun. apply assign_returns in Hrun as (-> & Halloc).
  repeat (split; [reflexivity|]). exact Halloc.
Qed.

Lemma assign_keeps_array_witness :
  exists a' h',
    Image.assign rgb_3x1 unknown_1x1 (<[2%positive := []]> rgb_3x1_store)
    = Ret (a', h')
    /\ Image.getWidth a' = 1
    /\ Image.getData a' = Some 1%positive
    /\ Image.allocated a' h' = 12.
Proof.
  destruct (Image.assign rgb_3x1 unknown_1x1 (<[2%positive := []]> rgb_3x1_store))
    as [[a' h']| |] eqn:Hrun; [|vm_compute in Hrun; discriminate Hrun..].
  exists a', h'. split; [reflexivity|].
  destruct (assign_keeps_array _ _ _ _ _ Hrun)
    as (Hw & _ & _ & _ & _ & _ & Hd & Ha).
  split; [exact Hw|]. split; [exact Hd|].
  rewrite Ha. vm_compute. reflexivity.
Defined.

(** ** Memory safety of saving *)

Section SaveSafety.

Context `{L : LibJpeg}.

Lemma to_int_small (x : Z) : 0 <= x < 2 ^ 31 -> to_int x = x.
Proof.
  intros Hx. unfold to_int.
  rewrite (Z.mod_small x) by (change (2 ^ 32) with 4294967296;
                               change (2 ^ 31) with 2147483648 in Hx; lia).
  destruct (x <? 2 ^ 31) eqn:Hlt; [reflexivity|].
  apply Z.ltb_ge in Hlt. lia.
Qed.

Lemma row_offset (this : Image.t) (row : Z) :
  0 <= row * Image.mRowSize this < 2 ^ 32 ->
  Image.pixel_offset this row 0 = row * Image.mRowSize this.
Proof.
  intros Hr. unfold Image.pixel_offset.
  rewrite Z.mul_0_l. change (to_unsigned 0) with 0.
  rewrite Z.add_0_r, !to_unsigned_small by (rewrite ?to_unsigned_small; lia).
  reflexivity.
Qed.

(** The loop of [saveJPEG] reads every row inside the buffer. *)
Lemma write_rows_safe (image : Image.t) (p : block_id) (cells : list cell)
    (path : string) (passes : nat) :
  forall cinfo row w,
    Image.mData image = Some p ->
    heap w !! p = Some cells ->
    c_image_width cinfo = Image.mWidth image ->
    input_components cinfo = Image.mNumberOfChannels image ->
    0 <= Image.mWidth image * Image.mNumberOfChannels image <= Image.mRowSize image ->
    Image.mRowSize image * Image.mHeight image <= Z.of_nat (length cells) ->
    Image.mRowSize image * Image.mHeight image < 2 ^ 32 ->
    Image.mHeight image < 2 ^ 31 ->
    0 <= row -> row + Z.of_nat passes <= Image.mHeight image ->
    ImageFile.write_rows passes cinfo path image row w <> Undefined.
Proof.
  induction passes as [|passes IH];
    intros cinfo row w Hp Hcells Hw Hn Hrow Hlen Hsize Hh Hr Hrows.
  - discriminate.
  - cbn [ImageFile.write_rows]. unfold Image.pixelAt. rewrite Hp.
    rewrite (to_unsigned_small row) by lia.
    assert (Hoff : 0 <= row * Image.mRowSize image
                   /\ row * Image.mRowSize image + Image.mRowSize image
                      <= Image.mRowSize image * Image.mHeight image) by nia.
    rewrite row_offset by lia.
    rewrite (load_n_in_bounds _ p _ (heap w) cells Hcells) by (rewrite ?Hw, ?Hn; lia).
    cbn [obind].
    destruct (write_scanline cinfo _) as [bytes|]; [|discriminate].
    cbn [fatal obind]. rewrite (to_int_small (row + 1)) by lia.
    apply IH; try assumption; try lia.
Qed.

End SaveSafety.

(** X21.  [save] never reads outside the buffer of the image.  For an image
    in the layout [rows_in_buffer] with fewer than 2^31 rows, and a library
    whose [jpeg_set_defaults] leaves the dimensions alone, [save] has no
    undefined behaviour: it returns, or the library ends the process. *)
Theorem save_memory_safe `{L : LibJpeg} (path : string) (image : Image.t)
    (w : world) :
  defaults_keep_dimensions L ->
  rows_in_buffer image (heap w) ->
  0 <= Image.getWidth image ->
  0 <= Image.getHeight image < 2 ^ 31 ->
  ImageFile.save path image w = Exited
  \/ exists b w', ImageFile.save path image w = Ret (b, w').
Proof.
  unfold Image.getWidth, Image.getHeight.
  intros Hdef (p & cells & Hp & Hcells & Hch & HW & Hlen & Hsize) Hw Hh.
  assert (Hsafe : ImageFile.save path image w <> Undefined).
  { unfold ImageFile.save.
    destruct (ImageFile.checkFileExtension path); [discriminate|].
    unfold ImageFile.saveJPEG.
    destruct (fopen path WB w) as [w1|] eqn:Hopen; [|discriminate].
    apply fopen_wb in Hopen as (-> & _).
    assert (Hn : 0 <= Image.mNumberOfChannels image).
    { rewrite Hch. destruct (Image.mColorSpace image); cbn; lia. }
    destruct (Image.getColorSpace image); [discriminate| | |].
    all: destruct (set_defaults _) as [cinfo|] eqn:Hset; [|discriminate];
      cbn [fatal obind].
    all: apply Hdef in Hset as (Hcw & Hchh & Hci & Hcn);
      cbn [c_image_width c_image_height input_components next_scanline] in *.
    all: destruct (start_compress _) as [header|]; [|discriminate];
      cbn [fatal obind].
    all: match goal with
         | |- context [ImageFile.write_rows ?k ?c ?pa ?im ?r ?ww] =>
             pose proof (write_rows_safe image p cells pa k c r ww) as Hloop;
             destruct (ImageFile.write_rows k c pa im r ww) as [[cinfo' w7]| |]
         end.
    all: try discriminate.
    all: try (cbn [obind];
              destruct (finish_compress _) as [trailer|]; discriminate).
    all: exfalso; apply Hloop; cbn [c_image_width input_components log fwrite
                                    with_files heap]; try assumption;
      try reflexivity; try nia.
    all: rewrite Hchh, Hcn; unfold Image.getHeight; lia. }
  destruct (ImageFile.save path image w) as [[b w']| |].
  - right. eauto.
  - contradiction Hsafe. reflexivity.
  - left. reflexivity.
Qed.

Lemma save_memory_safe_witness :
  defaults_keep_dimensions raw_codec
  /\ rows_in_buffer rgb_3x1 rgb_3x1_store
  /\ (@ImageFile.save raw_codec "out.jpg" rgb_3x1
        (world_with_file "in.jpg" raw_rgb_2x1 rgb_3x1_store) = Exited
      \/ exists b w',
           @ImageFile.save raw_codec "out.jpg" rgb_3x1
             (world_with_file "in.jpg" raw_rgb_2x1 rgb_3x1_store) = Ret (b, w')).
Proof.
  assert (Hdef : defaults_keep_dimensions raw_codec).
  { intros cinfo cinfo' [= <-]. repeat split. }
  assert (Hrows : rows_in_buffer rgb_3x1 rgb_3x1_store).
  { exists 1%positive, (replicate 12 Indeterminate).
    repeat split; vm_compute; (reflexivity || discriminate). }
  split; [exact Hdef|]. split; [exact Hrows|].
  apply (@save_memory_safe raw_codec "out.jpg" rgb_3x1
           (world_with_file "in.jpg" raw_rgb_2x1 rgb_3x1_store) Hdef Hrows).
  - vm_compute. discriminate.
  - vm_compute. split; [discriminate | reflexivity].
Defined.

(** ** Memory safety of loading *)

Section LoadSafety.

Context `{L : LibJpeg}.

Lemma advance_output_iter (k : nat) (cInfo : jpeg_decompress_struct) :
  advance_output (Nat.iter k advance_output cInfo)
  = Nat.iter (S k) advance_output cInfo.
Proof. reflexivity. Qed.

(** The loop of [loadJPEG] writes every row inside the buffer. *)
Lemma read_rows_safe (cInfo : jpeg_decompress_struct) (image : Image.t)
    (p : block_id) (passes : nat) :
  forall (k : nat) w,
    Image.mData image = Some p ->
    is_Some (heap w !! p) ->
    Image.mRowSize image * Image.mHeight image <= Store.allocated (Some p) (heap w) ->
    Image.mRowSize image * Image.mHeight image < 2 ^ 32 ->
    Image.mHeight image < 2 ^ 32 ->
    0 <= Image.mRowSize image ->
    (forall (j : nat) line,
        read_scanline (Nat.iter j advance_output cInfo) = Some line ->
        Z.of_nat (length line) <= Image.mRowSize image) ->
    Z.of_nat k + Z.of_nat passes <= Image.mHeight image ->
    ImageFile.read_rows passes (Nat.iter k advance_output cInfo) image
      (Z.of_nat k) w <> Undefined.
Proof.
  induction passes as [|passes IH];
    intros k w Hp Hlive Halloc Hsize Hh HR Hline Hrows.
  - discriminate.
  - cbn [ImageFile.read_rows]. unfold Image.pixelAt. rewrite Hp.
    assert (Hoff : 0 <= Z.of_nat k * Image.mRowSize image
                   /\ Z.of_nat k * Image.mRowSize image + Image.mRowSize image
                      <= Image.mRowSize image * Image.mHeight image) by nia.
    rewrite row_offset by lia.
    destruct (read_scanline _) as [line|] eqn:Hread; [|discriminate].
    cbn [fatal obind]. apply Hline in Hread.
    destruct Hlive as [cells Hcells].
    unfold Store.allocated in Halloc. rewrite Hcells in Halloc.
    destruct (store_n_returns (Val <$> line) p
                (Z.of_nat k * Image.mRowSize image) (heap w) cells Hcells)
      as (cells' & Hs & Hl' & _ & _); [lia | rewrite length_fmap; lia |].
    rewrite Hs. cbn [obind].
    rewrite advance_output_iter.
    replace (to_unsigned (Z.of_nat k + 1)) with (Z.of_nat (S k))
      by (rewrite to_unsigned_small; lia).
    apply IH; try assumption; cbn [log with_heap heap].
    + rewrite lookup_insert_eq. eexists. reflexivity.
    + unfold Store.allocated. rewrite lookup_insert_eq. lia.
    + lia.
Qed.

End LoadSafety.

(** X22.  [load] never writes outside the buffer of the image.  When the
    buffer of the target image is not dangling, the library delivers rows of
    at most [output_width * output_components] samples for an unscaled
    output, and the dimensions of the stream do not make the size arithmetic
    wrap around, [load] has no undefined behaviour: it returns, or the
    library ends the process. *)
Theorem load_memory_safe `{L : LibJpeg} (path : string) (image : Image.t)
    (w : world) :
  live image (heap w) ->
  (forall data cInfo0 cInfo,
      files w !! path = Some data ->
      read_header data = Some cInfo0 ->
      start_decompress cInfo0 = Some cInfo ->
      decoder_in_bounds L cInfo /\ decoder_fits cInfo) ->
  ImageFile.load path image w = Exited
  \/ exists b image' w', ImageFile.load path image w = Ret (b, image', w').
Proof.
  intros Hl Hlib.
  assert (Hsafe : ImageFile.load path image w <> Undefined).
  { unfold ImageFile.load.
    destruct (ImageFile.checkFileExtension path); [discriminate|].
    unfold ImageFile.loadJPEG.
    destruct (fopen path RB w) as [w1|] eqn:Hopen; [|discriminate].
    apply fopen_rb in Hopen as (-> & [data Hdata] & _).
    rewrite Hdata. change (default [] (Some data)) with data.
    destruct (read_header data) as [cInfo0|] eqn:Hhead; [|discriminate].
    cbn [fatal obind].
    destruct (start_decompress cInfo0) as [cInfo|] eqn:Hstart; [|discriminate].
    cbn [fatal obind].
    destruct (Hlib data cInfo0 cInfo Hdata Hhead Hstart)
      as ((Hline0 & Himg & Hw & Hh & Hrows) & Hbits & Hsize).
    cbv zeta in Hbits, Hsize.
    assert (Hcase :
      (exists cs,
          match out_color_space cInfo with
          | JCS_GRAYSCALE => Some GRAYSCALE
          | JCS_RGB | JCS_EXT_RGB => Some RGB
          | JCS_EXT_RGBA => Some RGBA
          | _ => None
          end = Some cs
          /\ calculateNumberOfChannels cs = output_components (out_color_space cInfo))
      \/ match out_color_space cInfo with
         | JCS_GRAYSCALE => Some GRAYSCALE
         | JCS_RGB | JCS_EXT_RGB => Some RGB
         | JCS_EXT_RGBA => Some RGBA
         | _ => None
         end = None).
    { destruct (out_color_space cInfo); eauto. }
    destruct Hcase as [(cs & -> & Hn)| ->].
    2:{ destruct (finish_decompress cInfo); discriminate. }
    cbn [log heap].
    rewrite (create_returns _ _ cs image (heap w) Hl). cbn [obind].
    set (R := Image.calculateRowSize (output_width cInfo) (Image.calculateBpp cs)) in *.
    set (n := to_unsigned (R * output_height cInfo)).
    set (h0 := released_store image (heap w)).
    set (image' := {| Image.mColorSpace := cs;
                      Image.mBpp := Image.calculateBpp cs;
                      Image.mWidth := output_width cInfo;
                      Image.mHeight := output_height cInfo;
                      Image.mRowSize := R;
                      Image.mNumberOfChannels := calculateNumberOfChannels cs;
                      Image.mData := Some (Store.new_array n h0).1 |}).
    assert (Hbpp : Image.calculateBpp cs
                   = output_components (out_color_space cInfo) * 8)
      by (rewrite calculateBpp_channels, Hn; reflexivity).
    rewrite <- Hbpp in Hsize. fold R in Hsize.
    assert (Hb : 0 <= Image.calculateBpp cs < 2 ^ 31)
      by (rewrite calculateBpp_channels;
          destruct cs; cbn [calculateNumberOfChannels]; lia).
    assert (Hbits' : output_width cInfo * Image.calculateBpp cs + 31 < 2 ^ 32)
      by (rewrite Hbpp; lia).
    pose proof (calculateRowSize_holds_row (output_width cInfo) _ Hw Hb Hbits')
      as Hrow. fold R in Hrow. rewrite Hbpp in Hrow.
    pose proof (calculateRowSize_range (output_width cInfo)
                  (Image.calculateBpp cs)) as HR.
    fold R in HR.
    assert (Hn0 : 0 <= R * output_height cInfo) by nia.
    pose proof (read_rows_safe cInfo image' (Store.new_array n h0).1
                  (Z.to_nat (image_height cInfo - output_scanline cInfo)) 0%nat
                  (with_heap (log (Ejpeg jpeg_start_decompress)
                                (log (Ejpeg jpeg_read_header)
                                   (log (Ejpeg jpeg_stdio_src)
                                      (log (Ejpeg jpeg_create_decompress)
                                         (log (Efopen path RB) w)))))
                     (Store.new_array n h0).2)) as Hloop.
    cbn [Nat.iter Z.of_nat] in Hloop.
    destruct (ImageFile.read_rows _ _ _ _ _) as [[cInfo' w7]| |].
    - cbn [obind]. destruct (finish_decompress cInfo'); discriminate.
    - exfalso. apply Hloop; cbn [Image.mData Image.mRowSize Image.mHeight
                                 image' with_heap log heap]; try reflexivity.
      + rewrite new_array_lookup. eexists. reflexivity.
      + unfold Store.allocated. rewrite new_array_lookup, length_replicate.
        unfold n. rewrite to_unsigned_small by lia. lia.
      + exact Hsize.
      + lia.
      + lia.
      + intros j line Hread. apply Hrows in Hread. lia.
      + rewrite Himg, Hline0. lia.
    - discriminate. }
  destruct (ImageFile.load path image w) as [[[b image'] w']| |].
  - right. eauto.
  - contradiction Hsafe. reflexivity.
  - left. reflexivity.
Qed.

Lemma advance_output_keeps (k : nat) (cInfo : jpeg_decompress_struct) :
  src (Nat.iter k advance_output cInfo) = src cInfo
  /\ output_width (Nat.iter k advance_output cInfo) = output_width cInfo
  /\ out_color_space (Nat.iter k advance_output cInfo) = out_color_space cInfo.
Proof.
  induction k as [|k IH]; [auto|].
  cbn [Nat.iter]. destruct IH as (Hsrc & Hwidth & Hcs).
  set (cInfo' := Nat.iter k advance_output cInfo) in *.
  split; [exact Hsrc|]. split; [exact Hwidth | exact Hcs].
Qed.

Lemma load_memory_safe_witness :
  live Image.Image_default ∅
  /\ (@ImageFile.load raw_codec "in.jpg" Image.Image_default
        (world_with_file "in.jpg" raw_rgb_2x1 ∅) = Exited
      \/ exists b image' w',
           @ImageFile.load raw_codec "in.jpg" Image.Image_default
             (world_with_file "in.jpg" raw_rgb_2x1 ∅) = Ret (b, image', w')).
Proof.
  split; [exact I|].
  apply (@load_memory_safe raw_codec "in.jpg" Image.Image_default
           (world_with_file "in.jpg" raw_rgb_2x1 ∅) I).
  intros data cInfo0 cInfo Hdata Hhead Hstart.
  vm_compute in Hdata. injection Hdata as <-.
  vm_compute in Hhead. injection Hhead as <-.
  vm_compute in Hstart. injection Hstart as <-.
  split.
  - split; [reflexivity|]. split; [reflexivity|].
    split; [vm_compute; discriminate|].
    split; [vm_compute; split; [discriminate | reflexivity]|].
    intros k line Hread.
    match type of Hread with
    | read_scanline (Nat.iter k advance_output ?c) = _ =>
        destruct (advance_output_keeps k c) as (Hsrc & Hwidth & _)
    end.
    cbn [read_scanline raw_codec] in Hread.
    rewrite Hsrc, Hwidth in Hread. injection Hread as <-.
    rewrite length_take.
    etransitivity; [apply inj_le, Nat.le_min_l|].
    vm_compute. discriminate.
  - vm_compute. split; reflexivity.
Defined.
